(** * RNNs.ipynb: model construction, forward pass, training and evaluation

    A shallow embedding of the notebook's own code: the [MyRNN] class
    ([__init__] and [forward]), the loop that loads the pretrained
    embedding table, [batchAccuracy], the training loop and the evaluation
    loop.

    Numbers.  Python floats and torch's float tensors are modelled by the
    real numbers of the Standard Library ([R]): comparisons are exact and
    no rounding, overflow, NaN or signed zero occurs.  Tensors are nested
    lists: a vector is a [list R], a matrix a list of rows, a rank-3 tensor
    a list of matrices (first axis outermost).

    Errors.  A Python call either returns or raises; [pyresult] is the
    error monad for that.

    The library.  What [torch] does inside a layer is not part of the
    notebook.  Layers whose arithmetic is elementary (embedding lookup,
    dropout, the linear layer, packing, Adam's update rule, the gradient
    of an embedding lookup) are written out after torch's documentation;
    the recurrent cell, the random masks and automatic differentiation
    through the network are the fields of the class [Torch], constrained
    only by torch's documented output shapes ([kernel_shapes]).

    Iterators.  [trainIterator] and [testIterator] are the lists of
    batches that one pass over them yields. *)

From Stdlib Require Import String List Bool Arith Lia.
From Stdlib Require Import Reals Lra.
Import ListNotations.

Open Scope R_scope.

(** ** Python results *)

Inductive exn : Type :=
| AssertionError
| IndexError
| RuntimeError
| TypeError
| ValueError
| ZeroDivisionError.

Inductive pyresult (A : Type) : Type :=
| Ok (a : A)
| Raise (e : exn).

Arguments Ok {A} a.
Arguments Raise {A} e.

Definition bind {A B : Type} (r : pyresult A) (k : A -> pyresult B) : pyresult B :=
  match r with
  | Ok a => k a
  | Raise e => Raise e
  end.

Notation "x <- r ;; k" := (bind r (fun x => k))
  (at level 61, r at next level, right associativity).

(** [for x in xs: acc = body(acc, x)], stopping at the first raise. *)
Fixpoint for_each {A S : Type} (body : S -> A -> pyresult S) (xs : list A) (s : S)
  : pyresult S :=
  match xs with
  | [] => Ok s
  | x :: rest => s' <- body s x ;; for_each body rest s'
  end.

(** ** Tensors *)

Abbreviation vec := (list R) (only parsing).
Abbreviation mat := (list (list R)) (only parsing).
Abbreviation tensor3 := (list (list (list R))) (only parsing).

Definition zeros (n : nat) : vec := repeat 0 n.

Definition mk_vec (n : nat) (f : nat -> R) : vec := map f (seq 0 n).

Definition mk_mat (rows cols : nat) (f : nat -> nat -> R) : mat :=
  map (fun i => mk_vec cols (f i)) (seq 0 rows).

(** [t[i] = row] on the first axis; Python raises out of range, the callers
    below only use indices that were checked. *)
Fixpoint set_row {A : Type} (i : nat) (row : A) (t : list A) : list A :=
  match t, i with
  | [], _ => []
  | _ :: rest, O => row :: rest
  | x :: rest, S j => x :: set_row j row rest
  end.

(** [enumerate]: map with the position. *)
Fixpoint mapi_from {A B : Type} (k : nat) (f : nat -> A -> B) (l : list A) : list B :=
  match l with
  | [] => []
  | x :: rest => f k x :: mapi_from (S k) f rest
  end.

Definition mapi {A B : Type} (f : nat -> A -> B) (l : list A) : list B :=
  mapi_from 0 f l.

(** The shape of a matrix: [rows] rows, each of [cols] entries. *)
Definition mat_shape (rows cols : nat) (m : mat) : Prop :=
  length m = rows /\ Forall (fun r => length r = cols) m.

(** ** Hyperparameters (notebook cell 5) *)

Definition embeddingSize : nat := 100.
Definition hiddenSize : nat := 10.
Definition dropoutRate : R := 0.5.
Definition numEpochs : nat := 5.
#[warnings="-abstract-large-number"]
Definition vocabSize : nat := 20002.
Definition pad : nat := 1.
Definition unk : nat := 0.

(** ** Layers *)

(** [nn.Embedding]. *)
Record Embedding : Type := mkEmbedding {
  num_embeddings : nat;
  embedding_dim : nat;
  padding_idx : option nat;
  emb_weight : mat
}.

Inductive cell : Type := CellRNN | CellGRU | CellLSTM.

(** Rows of the stacked gate matrices per hidden unit: one for the plain
    recurrence, three for reset/update/new, four for
    input/forget/cell/output. *)
Definition gates (c : cell) : nat :=
  match c with
  | CellRNN => 1
  | CellGRU => 3
  | CellLSTM => 4
  end.

(** The parameters of one direction of a one-layer recurrent module:
    [weight_ih_l0], [weight_hh_l0], [bias_ih_l0], [bias_hh_l0] (and the
    [_reverse] ones for the second direction). *)
Record DirParams : Type := mkDirParams {
  weight_ih : mat;
  weight_hh : mat;
  bias_ih : vec;
  bias_hh : vec
}.

(** [nn.RNN], [nn.GRU], [nn.LSTM] with one layer. *)
Record Recurrent : Type := mkRecurrent {
  kind : cell;
  input_size : nat;
  hidden_size : nat;
  bidirectional : bool;
  directions : list DirParams
}.

(** [nn.Linear]. *)
Record Linear : Type := mkLinear {
  in_features : nat;
  out_features : nat;
  lin_weight : mat;
  lin_bias : vec
}.

(** The values torch's global generator hands out when a parameter tensor
    is initialised: [g k i j] is entry [(i, j)] of the [k]-th tensor. *)
Definition init_values : Type := nat -> nat -> nat -> R.

(** [nn.Embedding(num, dim, padding_idx = p)]: torch asserts that the
    padding index is a row of the table and zeroes that row. *)
Definition nn_Embedding (g : init_values) (num dim p : nat) : pyresult Embedding :=
  if p <? num then
    Ok (mkEmbedding num dim (Some p) (set_row p (zeros dim) (mk_mat num dim (g 0%nat))))
  else Raise AssertionError.

Definition init_direction (g : init_values) (k : nat) (c : cell) (inp hid : nat)
  : DirParams :=
  mkDirParams (mk_mat (gates c * hid) inp (g k))
              (mk_mat (gates c * hid) hid (g (k + 1)%nat))
              (mk_vec (gates c * hid) (g (k + 2)%nat 0%nat))
              (mk_vec (gates c * hid) (g (k + 3)%nat 0%nat)).

Definition nn_Recurrent (g : init_values) (c : cell) (inp hid : nat) (bi : bool)
  : Recurrent :=
  mkRecurrent c inp hid bi
    (init_direction g 1 c inp hid
     :: (if bi then [init_direction g 5 c inp hid] else [])).

(** [nn.RNN(inp, hid)] and [nn.GRU(inp, hid)]: [bidirectional] defaults to
    [False]. *)
Definition nn_RNN (g : init_values) (inp hid : nat) : Recurrent :=
  nn_Recurrent g CellRNN inp hid false.

Definition nn_GRU (g : init_values) (inp hid : nat) : Recurrent :=
  nn_Recurrent g CellGRU inp hid false.

Definition nn_LSTM (g : init_values) (inp hid : nat) (bi : bool) : Recurrent :=
  nn_Recurrent g CellLSTM inp hid bi.

Definition nn_Linear (g : init_values) (inp out : nat) : Linear :=
  mkLinear inp out (mk_mat out inp (g 9%nat)) (mk_vec out (g 10%nat 0%nat)).

(** ** The model class *)

Record MyRNN : Type := mkMyRNN {
  name : string;
  LSTM : bool;
  bidir : bool;
  embed : Embedding;
  rnn : Recurrent;
  dense : Linear;
  dropout : R;
  training : bool
}.

(** [MyRNN.__init__(self, model)].  A freshly built [nn.Module] is in
    training mode. *)
Definition MyRNN_init (g : init_values) (model : string) : pyresult MyRNN :=
  let self_LSTM := (model =? "LSTM")%string || (model =? "BiLSTM")%string in
  let self_bidir := (model =? "BiLSTM")%string in
  self_embed <- nn_Embedding g vocabSize embeddingSize pad ;;
  let self_rnn :=
    if (model =? "RNN")%string then nn_RNN g embeddingSize hiddenSize
    else if (model =? "GRU")%string then nn_GRU g embeddingSize hiddenSize
    else nn_LSTM g embeddingSize hiddenSize self_bidir in
  let self_dense :=
    nn_Linear g (hiddenSize * (if self_bidir then 2 else 1)) 1 in
  Ok (mkMyRNN model self_LSTM self_bidir self_embed self_rnn self_dense
              dropoutRate true).

(** The four variant tags of the notebook. *)
Inductive variant : Type := RNN | GRU | LSTMv | BiLSTM.

Definition tag_of (v : variant) : string :=
  match v with
  | RNN => "RNN"
  | GRU => "GRU"
  | LSTMv => "LSTM"
  | BiLSTM => "BiLSTM"
  end%string.

Definition variant_tags : list string := map tag_of [RNN; GRU; LSTMv; BiLSTM].

(** ** Python values that [forward] handles *)

(** A tensor of rank zero to three. *)
Inductive tensor : Type :=
| T0 (x : R)
| T1 (v : vec)
| T2 (m : mat)
| T3 (t : tensor3).

(** The second component of what a recurrent module returns: a tensor
    ([h_n]) or a pair of tensors ([(h_n, c_n)]). *)
Inductive pyval : Type :=
| PTensor (t : tensor)
| PTuple (h c : tensor).

Fixpoint mapM {A B : Type} (f : A -> pyresult B) (l : list A) : pyresult (list B) :=
  match l with
  | [] => Ok []
  | x :: rest => y <- f x ;; ys <- mapM f rest ;; Ok (y :: ys)
  end.

Fixpoint map2 {A B C : Type} (f : A -> B -> C) (a : list A) (b : list B) : list C :=
  match a, b with
  | x :: a', y :: b' => f x y :: map2 f a' b'
  | _, _ => []
  end.

(** ** Library layers, forward direction *)

(** [nn.Embedding.forward] on a two-dimensional index tensor: each index
    is replaced by its row of the table. *)
Definition embedding_lookup (e : Embedding) (i : nat) : pyresult vec :=
  match nth_error (emb_weight e) i with
  | Some row => Ok row
  | None => Raise IndexError
  end.

Definition embedding_forward (e : Embedding) (text : list (list nat))
  : pyresult tensor3 :=
  mapM (mapM (embedding_lookup e)) text.

(** A dropout mask: whether the element at an index path is zeroed. *)
Definition mask : Type := list nat -> bool.

Definition drop (p : R) (zeroed : bool) (x : R) : R :=
  if zeroed then 0 else x / (1 - p).

Definition dropout_vec (p : R) (z : mask) (path : list nat) (v : vec) : vec :=
  mapi (fun j x => drop p (z (path ++ [j])) x) v.

Definition dropout_mat (p : R) (z : mask) (path : list nat) (m : mat) : mat :=
  mapi (fun i row => dropout_vec p z (path ++ [i]) row) m.

Definition dropout_tensor3 (p : R) (z : mask) (t : tensor3) : tensor3 :=
  mapi (fun i m => dropout_mat p z [i] m) t.

(** [nn.Dropout(p)]: the identity in evaluation mode; in training mode the
    masked elements are zeroed and the others scaled by [1 / (1 - p)]. *)
Definition nn_Dropout (train : bool) (p : R) (z : mask) (t : tensor) : tensor :=
  if train then
    match t with
    | T0 x => T0 (drop p (z []) x)
    | T1 v => T1 (dropout_vec p z [] v)
    | T2 m => T2 (dropout_mat p z [] m)
    | T3 t => T3 (dropout_tensor3 p z t)
    end
  else t.

Record PackedSequence : Type := mkPacked {
  data : list mat;
  batch_sizes : list nat
}.

Fixpoint sorted_decreasing (l : list nat) : bool :=
  match l with
  | a :: rest =>
      match rest with
      | b :: _ => (b <=? a) && sorted_decreasing rest
      | [] => true
      end
  | [] => true
  end.

(** How many sequences of the batch are longer than [t]. *)
Definition batch_size_at (lengths : list nat) (t : nat) : nat :=
  length (filter (fun l => t <? l) lengths).

(** What [pack_padded_sequence] (with [enforce_sorted = True], time-major
    input) checks before packing: a non-empty input, one length per
    sequence, every length positive and within the padded length, lengths
    in decreasing order. *)
Definition packable (input : tensor3) (lengths : list nat) : bool :=
  let T := length input in
  let B := length (hd [] input) in
  let E := length (hd [] (hd [] input)) in
  (0 <? T * B * E) && (length lengths =? B)
  && forallb (fun l => (0 <? l) && (l <=? T)) lengths
  && sorted_decreasing lengths.

Definition pack_padded_sequence (input : tensor3) (lengths : list nat)
  : pyresult PackedSequence :=
  if packable input lengths then
    let steps := seq 0 (hd 0%nat lengths) in
    Ok (mkPacked
          (map (fun t => firstn (batch_size_at lengths t) (nth t input [])) steps)
          (map (batch_size_at lengths) steps))
  else Raise RuntimeError.

(** [pad_packed_sequence]: the padded tensor and the lengths again. *)
Definition pad_packed_sequence (p : PackedSequence) : tensor3 * list nat :=
  let B := hd 0%nat (batch_sizes p) in
  let W := length (hd [] (hd [] (data p))) in
  (map (fun step => step ++ repeat (zeros W) (B - length step)) (data p),
   map (fun b => length (filter (fun n => b <? n) (batch_sizes p))) (seq 0 B)).

(** [torch.cat((a, b), dim = 1)] on two matrices: the rows are appended
    pairwise; the row counts must agree. *)
Definition torch_cat1 (a b : mat) : pyresult mat :=
  if (length a =? length b)%nat then Ok (map2 (@app R) a b) else Raise RuntimeError.

Definition dot (a b : vec) : R := fold_right Rplus 0 (map2 Rmult a b).

(** [nn.Linear.forward] on one vector: [x W^T + b]. *)
Definition linear_vec (l : Linear) (x : vec) : pyresult vec :=
  if (length x =? in_features l)%nat then
    Ok (map2 (fun w b => dot w x + b) (lin_weight l) (lin_bias l))
  else Raise RuntimeError.

(** [nn.Linear.forward] acts on the last axis. *)
Definition nn_Linear_forward (l : Linear) (t : tensor) : pyresult tensor :=
  match t with
  | T0 _ => Raise RuntimeError
  | T1 v => y <- linear_vec l v ;; Ok (T1 y)
  | T2 m => y <- mapM (linear_vec l) m ;; Ok (T2 y)
  | T3 t => y <- mapM (mapM (linear_vec l)) t ;; Ok (T3 y)
  end.

(** ** Python indexing and unpacking used by [forward] *)

(** [a, b = v]. *)
Definition unpack2 (v : pyval) : pyresult (tensor * tensor) :=
  match v with
  | PTuple h c => Ok (h, c)
  | PTensor (T3 [a; b]) => Ok (T2 a, T2 b)
  | PTensor (T2 [a; b]) => Ok (T1 a, T1 b)
  | PTensor (T1 [a; b]) => Ok (T0 a, T0 b)
  | PTensor (T0 _) => Raise TypeError
  | PTensor _ => Raise ValueError
  end.

(** [v[-k, :, :]] for [k >= 1]: the [k]-th matrix from the end of a rank-3
    tensor. *)
Definition getitem_from_end (k : nat) (v : pyval) : pyresult mat :=
  match v with
  | PTensor (T3 t) =>
      if (1 <=? k) && (k <=? length t) then Ok (nth (length t - k) t [])
      else Raise IndexError
  | PTensor _ => Raise IndexError
  | PTuple _ _ => Raise TypeError
  end.

(** [v[0]]. *)
Definition getitem0 (v : pyval) : pyresult tensor :=
  match v with
  | PTuple h _ => Ok h
  | PTensor (T3 (m :: _)) => Ok (T2 m)
  | PTensor (T2 (r :: _)) => Ok (T1 r)
  | PTensor (T1 (x :: _)) => Ok (T0 x)
  | PTensor _ => Raise IndexError
  end.

(** ** The part of torch that is taken as given *)

(** A batch: [batch[0] = (text, textLen)], [batch[1] = label].  The text
    is time-major: one row of token indices per time step, one column per
    example. *)
Record Batch : Type := mkBatch {
  text : list (list nat);
  textLen : list nat;
  label : vec
}.

(** What one direction of a recurrent layer produces on a packed input:
    the per-step outputs, the final hidden state of every sequence and
    (for an LSTM) the final cell state. *)
Record DirResult : Type := mkDirResult {
  outputs : list mat;
  h_last : mat;
  c_last : mat
}.

(** What [loss.backward()] leaves behind: the gradient that reaches the
    output of the embedding lookup, and the gradients of the parameters
    after the embedding table, in the order of [parameters]. *)
Record Grads : Type := mkGrads {
  d_embedded : tensor3;
  d_rest : list mat
}.

Class Torch : Type := {
  (** One direction of a recurrent cell of the given kind and hidden width,
      run forward ([false]) or reversed ([true]) over a packed batch. *)
  run_direction : cell -> nat -> DirParams -> bool -> PackedSequence -> DirResult;
  (** The [n]-th dropout mask drawn after [torch.manual_seed(0)]. *)
  bernoulli : nat -> mask;
  (** Reverse-mode differentiation of the loss of one training step. *)
  autograd : MyRNN -> mask -> mask -> Batch -> Grads
}.

(** torch's documented output shape: the final hidden state of a direction
    has one row of [hid] entries per sequence of the batch. *)
Definition kernel_shapes (K : Torch) : Prop :=
  forall c hid params rev p,
    mat_shape (hd 0%nat (batch_sizes p)) hid (h_last (run_direction c hid params rev p)).

(** Calling a recurrent module on a packed sequence.  [h_n] stacks the
    final hidden states of the directions, forward first; an LSTM returns
    the pair [(h_n, c_n)], the other two cells return [h_n]. *)
Definition nn_Recurrent_forward {K : Torch} (l : Recurrent) (p : PackedSequence)
  : PackedSequence * pyval :=
  let runs :=
    mapi (fun d params => run_direction (kind l) (hidden_size l) params (d =? 1)%nat p)
         (directions l) in
  let out :=
    match runs with
    | [fw] => outputs fw
    | [fw; bw] => map2 (map2 (@app R)) (outputs fw) (outputs bw)
    | _ => []
    end in
  let h_n := map h_last runs in
  let c_n := map c_last runs in
  (mkPacked out (batch_sizes p),
   match kind l with
   | CellLSTM => PTuple (T3 h_n) (T3 c_n)
   | _ => PTensor (T3 h_n)
   end).

(** ** [MyRNN.forward] *)

(** The representation handed to the classifier (the [if self.bidir]
    statement of [forward]). *)
Definition select_hidden (self : MyRNN) (hidden : pyval) : pyresult tensor :=
  if bidir self then
    a <- getitem_from_end 2 hidden ;;
    b <- getitem_from_end 1 hidden ;;
    c <- torch_cat1 a b ;;
    Ok (T2 c)
  else getitem0 hidden.

(** [forward(self, text, textLengths)]; [z1] and [z2] are the masks of the
    two dropout calls.  Dropout keeps the rank, so the embedded batch
    stays a rank-3 tensor; [output] and [outputLengths] are computed and
    not used, as in the notebook. *)
Definition forward {K : Torch} (self : MyRNN) (z1 z2 : mask)
    (text : list (list nat)) (textLengths : list nat) : pyresult tensor :=
  e <- embedding_forward (embed self) text ;;
  let embedded :=
    if training self then dropout_tensor3 (dropout self) z1 e else e in
  packedEmbedded <- pack_padded_sequence embedded textLengths ;;
  let '(packedOutput, result) := nn_Recurrent_forward (rnn self) packedEmbedded in
  hidden <- (if LSTM self then
               hc <- unpack2 result ;; Ok (PTensor (fst hc))
             else Ok result) ;;
  let '(output, outputLengths) := pad_packed_sequence packedOutput in
  hidden <- select_hidden self hidden ;;
  nn_Linear_forward (dense self) (nn_Dropout (training self) (dropout self) z2 hidden).

(** ** The metric and the loss (notebook cell 9) *)

(** [t.squeeze(1)]: axis 1 is removed when its size is one. *)
Definition squeeze1 (t : tensor) : pyresult tensor :=
  match t with
  | T2 m =>
      Ok (if forallb (fun r => length r =? 1)%nat m then T1 (map (hd 0) m) else T2 m)
  | T3 t =>
      Ok (if forallb (fun m => length m =? 1)%nat t then T2 (map (hd []) t) else T3 t)
  | _ => Raise IndexError
  end.

Definition sigmoid (x : R) : R := 1 / (1 + exp (- x)).

Definition bce_with_logits (x y : R) : R :=
  - (y * ln (sigmoid x) + (1 - y) * ln (1 - sigmoid x)).

(** [nn.BCEWithLogitsLoss()] on one-dimensional logits and targets: the
    sizes must agree; the element losses are averaged. *)
Definition criterion (input target : vec) : pyresult R :=
  if (length input =? length target)%nat then
    Ok (fold_right Rplus 0 (map2 bce_with_logits input target) / INR (length input))
  else Raise ValueError.

(** [x >= 0]. *)
Definition ge0 (x : R) : bool := if Rle_dec 0 x then true else false.

(** [b == t] for a boolean [b] and a float [t]: the boolean is promoted to
    [1.0] or [0.0]. *)
Definition eq_promoted (b : bool) (t : R) : bool :=
  if Req_dec_T (if b then 1 else 0) t then true else false.

(** Elementwise [==] of two one-dimensional tensors, with torch's
    broadcasting of a size-one axis. *)
Definition tensor_eq (a : list bool) (t : vec) : pyresult (list bool) :=
  if (length a =? length t)%nat then Ok (map2 eq_promoted a t)
  else if (length t =? 1)%nat then Ok (map (fun b => eq_promoted b (hd 0 t)) a)
  else if (length a =? 1)%nat then Ok (map (eq_promoted (hd false a)) t)
  else Raise RuntimeError.

Definition count_true (l : list bool) : nat := length (filter (fun b => b) l).

(** [batchAccuracy(preds, targets)]. *)
Definition batchAccuracy (preds targets : vec) : pyresult R :=
  let roundedPreds := map ge0 preds in
  agree <- tensor_eq roundedPreds targets ;;
  if (length preds =? 0)%nat then Raise ZeroDivisionError
  else Ok (INR (count_true agree) / INR (length preds)).

(** ** Loading the pretrained embedding table (notebook cell 8) *)

(** Broadcasting one source row onto a destination row: equal widths, or a
    source of width one. *)
Definition broadcast_row (d s : vec) : pyresult vec :=
  if (length s =? length d)%nat then Ok s
  else if (length s =? 1)%nat then Ok (repeat (hd 0 s) (length d))
  else Raise RuntimeError.

(** [dst.copy_(src)] on matrices: the result has the shape of [dst]. *)
Definition copy_ (dst src : mat) : pyresult mat :=
  if (length src =? length dst)%nat then
    mapM (fun ds => broadcast_row (fst ds) (snd ds)) (combine dst src)
  else if (length src =? 1)%nat then
    mapM (fun d => broadcast_row d (hd [] src)) dst
  else Raise RuntimeError.

(** [t[i] = row]. *)
Definition setitem (t : mat) (i : nat) (row : vec) : pyresult mat :=
  match nth_error t i with
  | None => Raise IndexError
  | Some old => r <- broadcast_row old row ;; Ok (set_row i r t)
  end.

Definition set_emb_weight (w : mat) (m : MyRNN) : MyRNN :=
  mkMyRNN (name m) (LSTM m) (bidir m)
    (mkEmbedding (num_embeddings (embed m)) (embedding_dim (embed m))
                 (padding_idx (embed m)) w)
    (rnn m) (dense m) (dropout m) (training m).

(** The body of the loading loop for one model. *)
Definition load_pretrained (reviewVocabVectors : mat) (model : MyRNN)
  : pyresult MyRNN :=
  w1 <- copy_ (emb_weight (embed model)) reviewVocabVectors ;;
  w2 <- setitem w1 unk (zeros embeddingSize) ;;
  w3 <- setitem w2 pad (zeros embeddingSize) ;;
  Ok (set_emb_weight w3 model).

(** [for model in models: if model is None: continue; ...]. *)
Definition for_models (body : MyRNN -> pyresult MyRNN) (models : list (option MyRNN))
  : pyresult (list (option MyRNN)) :=
  mapM (fun model =>
          match model with
          | None => Ok None
          | Some m => m' <- body m ;; Ok (Some m')
          end) models.

Definition load_all (reviewVocabVectors : mat) (models : list (option MyRNN))
  : pyresult (list (option MyRNN)) :=
  for_models (load_pretrained reviewVocabVectors) models.

(** ** Parameters and the optimizer *)

Definition direction_parameters (d : DirParams) : list mat :=
  [weight_ih d; weight_hh d; [bias_ih d]; [bias_hh d]].

(** [model.parameters()], in registration order; a one-dimensional
    parameter is listed as a one-row matrix. *)
Definition parameters (m : MyRNN) : list mat :=
  emb_weight (embed m)
  :: concat (map direction_parameters (directions (rnn m)))
  ++ [lin_weight (dense m); [lin_bias (dense m)]].

Fixpoint store_directions (n : nat) (ps : list mat) : list DirParams * list mat :=
  match n with
  | O => ([], ps)
  | S k =>
      match ps with
      | a :: b :: c :: d :: rest =>
          let '(ds, remaining) := store_directions k rest in
          (mkDirParams a b (hd [] c) (hd [] d) :: ds, remaining)
      | _ => ([], ps)
      end
  end.

(** Writing updated values back into the tensors that [parameters] lists
    (the optimizer updates them in place). *)
Definition with_parameters (ps : list mat) (m : MyRNN) : MyRNN :=
  let '(ds, remaining) := store_directions (length (directions (rnn m))) (tl ps) in
  mkMyRNN (name m) (LSTM m) (bidir m)
    (mkEmbedding (num_embeddings (embed m)) (embedding_dim (embed m))
                 (padding_idx (embed m)) (hd [] ps))
    (mkRecurrent (kind (rnn m)) (input_size (rnn m)) (hidden_size (rnn m))
                 (bidirectional (rnn m)) ds)
    (mkLinear (in_features (dense m)) (out_features (dense m))
              (nth 0 remaining []) (hd [] (nth 1 remaining [])))
    (dropout m) (training m).

(** The gradient of an embedding lookup with respect to the table: the
    gradient of every looked-up position is added to the row of its token,
    except for the padding index, whose row receives nothing. *)
Definition is_padding (e : Embedding) (i : nat) : bool :=
  match padding_idx e with
  | Some p => (i =? p)%nat
  | None => false
  end.

Definition add_at (acc : mat) (i : nat) (g : vec) : mat :=
  mapi (fun k row => if (k =? i)%nat then map2 Rplus row g else row) acc.

Definition embedding_backward (e : Embedding) (text : list (list nat))
    (d_out : tensor3) : mat :=
  fold_left (fun acc ig => if is_padding e (fst ig) then acc
                           else add_at acc (fst ig) (snd ig))
            (combine (concat text) (concat d_out))
            (repeat (zeros (embedding_dim e)) (num_embeddings e)).

(** [torch.optim.Adam] with its default hyperparameters. *)
Definition lr : R := 1e-3.
Definition beta1 : R := 0.9.
Definition beta2 : R := 0.999.
Definition eps : R := 1e-8.

Record AdamState : Type := mkAdam {
  step : nat;
  exp_avg : list mat;
  exp_avg_sq : list mat
}.

Definition zeros_like (ps : list mat) : list mat :=
  map (map (map (fun _ : R => 0))) ps.

(** [torch.optim.Adam(params)]: the moment estimates start at zero. *)
Definition Adam (params : list mat) : AdamState :=
  mkAdam 0 (zeros_like params) (zeros_like params).

(** Elementwise binary operation on lists of matrices. *)
Definition pointwise (f : R -> R -> R) (a b : list mat) : list mat :=
  map2 (map2 (map2 f)) a b.

(** The elementwise rules of one Adam step, [t] being the number of the
    step: first and second moment estimates, the bias-corrected
    denominator, and the update of the parameter by the quotient [u] of
    the first moment and the denominator. *)
Definition adam_avg (m g : R) : R := beta1 * m + (1 - beta1) * g.

Definition adam_avg_sq (v g : R) : R := beta2 * v + (1 - beta2) * (g * g).

Definition adam_denom (t : nat) (v : R) : R := sqrt v / sqrt (1 - beta2 ^ t) + eps.

Definition adam_update (t : nat) (p u : R) : R := p + - (lr / (1 - beta1 ^ t)) * u.

(** [optimizer.step()]: the new state and the new parameter values. *)
Definition adam_step (st : AdamState) (params grads : list mat)
  : AdamState * list mat :=
  let t := S (step st) in
  let m := pointwise adam_avg (exp_avg st) grads in
  let v := pointwise adam_avg_sq (exp_avg_sq st) grads in
  let denom := map (map (map (adam_denom t))) v in
  (mkAdam t m v, pointwise (adam_update t) params (pointwise Rdiv m denom)).

(** ** The training loop (notebook cell 10) *)

(** What the notebook prints. *)
Inductive line : Type :=
| TrainLine (model : string) (epoch : nat) (loss : R)
| EvalLine (model : string) (accuracy : R)
| BlankLine.

(** [model.train()] and [model.eval()]. *)
Definition set_training (b : bool) (m : MyRNN) : MyRNN :=
  mkMyRNN (name m) (LSTM m) (bidir m) (embed m) (rnn m) (dense m) (dropout m) b.

(** The state one model's training threads through its steps: the model,
    the optimizer, how many masks were drawn since the seed was set, and
    [epochLoss]. *)
Record TrainState : Type := mkTrain {
  t_model : MyRNN;
  t_optimizer : AdamState;
  t_draws : nat;
  t_epochLoss : R
}.

(** The body of [for batch in trainIterator]. *)
Definition train_batch {K : Torch} (s : TrainState) (batch : Batch)
  : pyresult TrainState :=
  let model := t_model s in
  let z1 := bernoulli (t_draws s) in
  let z2 := bernoulli (S (t_draws s)) in
  out <- forward model z1 z2 (text batch) (textLen batch) ;;
  predictions <- squeeze1 out ;;
  loss <- match predictions with
          | T1 p => criterion p (label batch)
          | _ => Raise ValueError
          end ;;
  let g := autograd model z1 z2 batch in
  let grads :=
    embedding_backward (embed model) (text batch) (d_embedded g) :: d_rest g in
  let '(optimizer, ps) := adam_step (t_optimizer s) (parameters model) grads in
  Ok (mkTrain (with_parameters ps model) optimizer
              (t_draws s + (if training model then 2 else 0))
              (t_epochLoss s + loss)).

(** One epoch: [epochLoss = 0], the pass over the iterator, the printed
    line. *)
Definition train_epoch {K : Torch} (trainIterator : list Batch) (s : TrainState)
    (epoch : nat) : pyresult (TrainState * line) :=
  s' <- for_each train_batch trainIterator
          (mkTrain (t_model s) (t_optimizer s) (t_draws s) 0) ;;
  if (length trainIterator =? 0)%nat then Raise ZeroDivisionError
  else Ok (s', TrainLine (name (t_model s')) (epoch + 1)
                         (t_epochLoss s' / INR (length trainIterator))).

(** The body of the second [for model in models] of the training cell:
    seed, fresh optimizer, [numEpochs] epochs, a blank line. *)
Definition train_model {K : Torch} (trainIterator : list Batch) (model : MyRNN)
  : pyresult (MyRNN * list line) :=
  let s0 := mkTrain model (Adam (parameters model)) 0 0 in
  r <- for_each (fun sl epoch =>
                   x <- train_epoch trainIterator (fst sl) epoch ;;
                   Ok (fst x, snd sl ++ [snd x]))
                (seq 0 numEpochs) (s0, []) ;;
  Ok (t_model (fst r), snd r ++ [BlankLine]).

(** The training cell: every model is put in training mode, then each is
    trained in turn.  The result is the list of models as the cell leaves
    them and what it printed. *)
Definition training_loop {K : Torch} (trainIterator : list Batch)
    (models : list (option MyRNN)) : pyresult (list (option MyRNN) * list line) :=
  for_each (fun acc model =>
              match model with
              | None => Ok (fst acc ++ [None], snd acc)
              | Some m =>
                  r <- train_model trainIterator m ;;
                  Ok (fst acc ++ [Some (fst r)], snd acc ++ snd r)
              end)
           (map (option_map (set_training true)) models) ([], []).

(** ** The evaluation loop (notebook cell 11) *)

(** The body of [for batch in testIterator]: the accuracy of one batch.
    The loop runs in evaluation mode, where dropout draws no mask. *)
Definition eval_batch {K : Torch} (model : MyRNN) (batch : Batch) : pyresult R :=
  out <- forward model (bernoulli 0) (bernoulli 1) (text batch) (textLen batch) ;;
  predictions <- squeeze1 out ;;
  match predictions with
  | T1 p =>
      loss <- criterion p (label batch) ;;
      batchAccuracy p (label batch)
  | _ => Raise ValueError
  end.

(** The body of [for model in models] under [torch.no_grad()]: the line it
    prints. *)
Definition evaluate_model {K : Torch} (testIterator : list Batch) (model : MyRNN)
  : pyresult line :=
  accuracy <- for_each (fun accuracy batch =>
                          acc <- eval_batch model batch ;; Ok (accuracy + acc))
                       testIterator 0 ;;
  if (length testIterator =? 0)%nat then Raise ZeroDivisionError
  else Ok (EvalLine (name model) (accuracy / INR (length testIterator) * 100)).

(** The evaluation cell: every model is put in evaluation mode, then each
    is evaluated in turn.  The result is the list of models as the cell
    leaves them, whether it completes or stops at a raise, and what it
    printed if it completed. *)
Definition evaluation_loop {K : Torch} (testIterator : list Batch)
    (models : list (option MyRNN)) : list (option MyRNN) * pyresult (list line) :=
  let models' := map (option_map (set_training false)) models in
  (models',
   for_each (fun log model =>
               match model with
               | None => Ok log
               | Some m => l <- evaluate_model testIterator m ;; Ok (log ++ [l])
               end)
            models' []).

(** ** The padding row during training *)

Definition padding_row_zero (w : mat) : Prop :=
  nth_error w pad = Some (zeros embeddingSize).

(** What every training step keeps: the embedding layer still has its
    padding index, and the padding row is zero in the table and in both
    moment estimates of the optimizer. *)
Record frozen_padding (s : TrainState) : Prop := mkFrozen {
  fp_idx : padding_idx (embed (t_model s)) = Some pad;
  fp_dim : embedding_dim (embed (t_model s)) = embeddingSize;
  fp_num : (pad < num_embeddings (embed (t_model s)))%nat;
  fp_weight : padding_row_zero (emb_weight (embed (t_model s)));
  fp_avg : padding_row_zero (hd [] (exp_avg (t_optimizer s)));
  fp_avg_sq : padding_row_zero (hd [] (exp_avg_sq (t_optimizer s)))
}.

(** ** Well-formed inputs and the shape of a built model *)

(** A padded batch as the iterators supply it: at least one time step and
    one example, every time step with one token per example, every token
    an index of the vocabulary, every true length between one and the
    padded length, the examples sorted by decreasing length. *)
Definition well_formed_input (text : list (list nat)) (lengths : list nat) : bool :=
  (0 <? length text) && (0 <? length lengths)
  && forallb (fun row => length row =? length lengths) text
  && forallb (forallb (fun tok => tok <? vocabSize)) text
  && forallb (fun l => (0 <? l) && (l <=? length text)) lengths
  && sorted_decreasing lengths.

(** A batch also carries one label per example. *)
Definition well_formed_batch (b : Batch) : bool :=
  well_formed_input (text b) (textLen b) && (length (label b) =? length (textLen b)).

Definition tensor3_shape (T B E : nat) (t : tensor3) : Prop :=
  length t = T /\ Forall (mat_shape B E) t.

(** The architecture [MyRNN_init] gives the variant [v]; loading the
    pretrained table and switching between training and evaluation mode
    keep it. *)
Record well_built (v : variant) (m : MyRNN) : Prop := mkWellBuilt {
  wb_LSTM : LSTM m = match v with LSTMv | BiLSTM => true | _ => false end;
  wb_bidir : bidir m = match v with BiLSTM => true | _ => false end;
  wb_kind : kind (rnn m) = match v with
                           | RNN => CellRNN
                           | GRU => CellGRU
                           | LSTMv | BiLSTM => CellLSTM
                           end;
  wb_hidden : hidden_size (rnn m) = hiddenSize;
  wb_directions :
    length (directions (rnn m)) = match v with BiLSTM => 2%nat | _ => 1%nat end;
  wb_table : mat_shape vocabSize embeddingSize (emb_weight (embed m));
  wb_in : in_features (dense m)
          = match v with BiLSTM => (hiddenSize * 2)%nat | _ => (hiddenSize * 1)%nat end;
  wb_weight : length (lin_weight (dense m)) = 1%nat;
  wb_bias : length (lin_bias (dense m)) = 1%nat
}.

(** The packed input of the recurrent layer: the first two statements of
    [forward]. *)
Definition packed_input (m : MyRNN) (z1 : mask) (text : list (list nat))
    (lengths : list nat) : pyresult PackedSequence :=
  e <- embedding_forward (embed m) text ;;
  pack_padded_sequence
    (if training m then dropout_tensor3 (dropout m) z1 e else e) lengths.

(** The final hidden state of direction [d] (0 forward, 1 backward) of the
    model's recurrent layer on a packed input. *)
Definition final_hidden {K : Torch} (m : MyRNN) (d : nat) (p : PackedSequence) : mat :=
  h_last (run_direction (kind (rnn m)) (hidden_size (rnn m))
                        (nth d (directions (rnn m)) (mkDirParams [] [] [] []))
                        (d =? 1)%nat p).

(** The representation fed to the classifier, in the words of the
    specification: the final hidden state of the single layer, or, for the
    bidirectional variant, the final forward and final backward hidden
    states joined along the feature axis. *)
Definition classifier_input {K : Torch} (v : variant) (m : MyRNN)
    (p : PackedSequence) : mat :=
  match v with
  | BiLSTM => map2 (@app R) (final_hidden m 0 p) (final_hidden m 1 p)
  | _ => final_hidden m 0 p
  end.

(** ** A stand-in for torch

    An instance of [Torch] with the documented shapes, used to exhibit
    concrete runs: every final state is zero, no element is dropped, and
    the gradient reaching every looked-up embedding is the all-ones
    vector. *)
Definition demo_direction (c : cell) (hid : nat) (params : DirParams) (rev : bool)
    (p : PackedSequence) : DirResult :=
  let B := hd 0%nat (batch_sizes p) in
  mkDirResult (map (fun n => repeat (zeros hid) n) (batch_sizes p))
              (repeat (zeros hid) B) (repeat (zeros hid) B).

Definition demo_autograd (m : MyRNN) (z1 z2 : mask) (b : Batch) : Grads :=
  mkGrads (map (map (fun _ : nat => repeat 1 (embedding_dim (embed m)))) (text b))
          (zeros_like (tl (parameters m))).

Definition demo_torch : Torch :=
  Build_Torch demo_direction (fun _ _ => false) demo_autograd.

(** ** The notebook as a whole (cells 7 to 11) *)

(** Cell 7: the four models, in the order of the list [models]; [g n] are
    the initial values that the [n]-th constructor call draws. *)
Definition build_models (g : nat -> init_values) : pyresult (list (option MyRNN)) :=
  basicRNN <- MyRNN_init (g 0%nat) "RNN" ;;
  GRU_ <- MyRNN_init (g 1%nat) "GRU" ;;
  LSTM_ <- MyRNN_init (g 2%nat) "LSTM" ;;
  biLSTM <- MyRNN_init (g 3%nat) "BiLSTM" ;;
  Ok [Some basicRNN; Some GRU_; Some LSTM_; Some biLSTM].

(** Cells 7, 8, 10 and 11 in order: build, load, train, evaluate.  The
    result is everything the notebook prints. *)
Definition notebook {K : Torch} (g : nat -> init_values) (reviewVocabVectors : mat)
    (trainIterator testIterator : list Batch) : pyresult (list line) :=
  models <- build_models g ;;
  models <- load_all reviewVocabVectors models ;;
  trained <- training_loop trainIterator models ;;
  evaluated <- snd (evaluation_loop testIterator (fst trained)) ;;
  Ok (snd trained ++ evaluated).

(** The names of the models of a list, the [None] entries skipped. *)
Definition model_names (models : list (option MyRNN)) : list string :=
  flat_map (fun model => match model with Some m => [name m] | None => [] end) models.

(** Two lists of matrices of the same shapes. *)
Definition same_shapes (a b : list mat) : Prop :=
  Forall2 (Forall2 (fun r s : vec => length r = length s)) a b.

(** torch's autograd gives every tensor a gradient of its own shape: the
    gradient reaching the embedding output has the embedding width, and
    the gradients of the other parameters have the shapes of the
    parameters. *)
Definition autograd_shapes (K : Torch) : Prop :=
  forall m z1 z2 b,
    Forall (Forall (fun g : vec => length g = embedding_dim (embed m)))
           (d_embedded (autograd m z1 z2 b))
    /\ same_shapes (tl (parameters m)) (d_rest (autograd m z1 z2 b)).

(** The architecture [MyRNN_init] gives a tag that is none of the four
    variants. *)
Record built_from_unknown_tag (m : MyRNN) : Prop := mkBuiltUnknown {
  bu_LSTM : LSTM m = false;
  bu_bidir : bidir m = false;
  bu_kind : kind (rnn m) = CellLSTM;
  bu_hidden : hidden_size (rnn m) = hiddenSize;
  bu_directions : length (directions (rnn m)) = 1%nat;
  bu_table : mat_shape vocabSize embeddingSize (emb_weight (embed m));
  bu_in : in_features (dense m) = (hiddenSize * 1)%nat;
  bu_weight : length (lin_weight (dense m)) = 1%nat;
  bu_bias : length (lin_bias (dense m)) = 1%nat
}.

(** What a training step keeps of a model of variant [v] named [nm] and
    of its optimizer: the architecture, the name, the size of the
    embedding layer, and moment estimates of the shapes of the
    parameters. *)
Record trainable (v : variant) (nm : string) (s : TrainState) : Prop := mkTrainable {
  tr_built : well_built v (t_model s);
  tr_name : name (t_model s) = nm;
  tr_num : num_embeddings (embed (t_model s)) = vocabSize;
  tr_dim : embedding_dim (embed (t_model s)) = embeddingSize;
  tr_avg : same_shapes (parameters (t_model s)) (exp_avg (t_optimizer s));
  tr_avg_sq : same_shapes (parameters (t_model s)) (exp_avg_sq (t_optimizer s))
}.

(** What the training of the model named [nm] prints when its epochs had
    the mean losses [losses]: one line per epoch, numbered from 1, and a
    blank line. *)
Definition training_lines (nm : string) (losses : list R) : list line :=
  mapi (fun epoch loss => TrainLine nm (epoch + 1) loss) losses ++ [BlankLine].

(** Two padded texts with the same tokens in every example: they agree at
    time step [t] of example [b] whenever [t] is below the true length of
    [b]; what stands in the padded positions is free. *)
Definition same_tokens (lengths : list nat) (text text' : list (list nat)) : Prop :=
  forall t b, (t < nth b lengths 0)%nat ->
              nth b (nth t text []) 0%nat = nth b (nth t text' []) 0%nat.

(** A printed line that carries a loss carries one that is not negative. *)
Definition loss_not_negative (l : line) : Prop :=
  match l with
  | TrainLine _ _ loss => 0 <= loss
  | _ => True
  end.

(** Labels as the dataset supplies them: every label between 0 and 1. *)
Definition labels_in_unit_interval (b : Batch) : Prop :=
  Forall (fun y => 0 <= y <= 1) (label b).

(** * Properties *)

(** ** Construction *)

Lemma nn_Embedding_notebook (g : init_values) :
  nn_Embedding g vocabSize embeddingSize pad
  = Ok (mkEmbedding vocabSize embeddingSize (Some pad)
          (set_row pad (zeros embeddingSize)
                   (mk_mat vocabSize embeddingSize (g 0%nat)))).
Proof. reflexivity. Qed.

Lemma not_variant_tag (tag : string) :
  ~ In tag variant_tags ->
  (tag =? "RNN")%string = false /\ (tag =? "GRU")%string = false
  /\ (tag =? "LSTM")%string = false /\ (tag =? "BiLSTM")%string = false.
Proof.
  intros H. repeat split; apply String.eqb_neq; intros ->; apply H; simpl; tauto.
Qed.

(** C3.  For each of the four tags, construction succeeds and yields the
    cell kind the tag names, a second direction exactly for BiLSTM, and a
    linear layer from the hidden width (doubled exactly for BiLSTM) to one
    logit. *)
Theorem construction_by_variant (g : init_values) (v : variant) :
  exists m,
    MyRNN_init g (tag_of v) = Ok m
    /\ kind (rnn m) = match v with
                      | RNN => CellRNN
                      | GRU => CellGRU
                      | LSTMv | BiLSTM => CellLSTM
                      end
    /\ bidirectional (rnn m) = match v with BiLSTM => true | _ => false end
    /\ length (directions (rnn m)) = match v with BiLSTM => 2%nat | _ => 1%nat end
    /\ in_features (dense m)
       = match v with BiLSTM => (2 * hiddenSize)%nat | _ => hiddenSize end
    /\ out_features (dense m) = 1%nat.
Proof.
  unfold MyRNN_init. rewrite nn_Embedding_notebook.
  destruct v; eexists; (split; [reflexivity | repeat split]).
Qed.

(** C1, as the code has it.  Construction rejects no tag: a tag outside the
    four variants takes the [else] branch and yields a unidirectional LSTM
    layer with a linear layer of the plain hidden width, while the model's
    own [LSTM] and [bidir] flags are false. *)
Theorem unknown_tag_builds_lstm (g : init_values) (tag : string) :
  ~ In tag variant_tags ->
  exists m,
    MyRNN_init g tag = Ok m
    /\ name m = tag
    /\ kind (rnn m) = CellLSTM
    /\ bidirectional (rnn m) = false
    /\ in_features (dense m) = hiddenSize
    /\ LSTM m = false
    /\ bidir m = false.
Proof.
  intros H. destruct (not_variant_tag tag H) as (Hr & Hg & Hl & Hb).
  unfold MyRNN_init. rewrite nn_Embedding_notebook, Hr, Hg, Hl, Hb.
  eexists; split; [reflexivity | repeat split].
Qed.

Lemma unknown_tag_builds_lstm_witness :
  exists m,
    MyRNN_init (fun _ _ _ => 0) "Transformer" = Ok m
    /\ name m = "Transformer"%string
    /\ kind (rnn m) = CellLSTM
    /\ bidirectional (rnn m) = false
    /\ in_features (dense m) = hiddenSize
    /\ LSTM m = false
    /\ bidir m = false.
Proof.
  apply (unknown_tag_builds_lstm (fun _ _ _ => 0) "Transformer").
  simpl. intros [H | [H | [H | [H | []]]]]; discriminate H.
Defined.

(** C1, the claim as written fails: the misspelt tag [lstm] is none of the
    four tags, and construction returns a model instead of raising. *)
Lemma unknown_tag_is_not_rejected :
  ~ In "lstm"%string variant_tags
  /\ (forall e, MyRNN_init (fun _ _ _ => 0) "lstm" <> Raise e)
  /\ exists m, MyRNN_init (fun _ _ _ => 0) "lstm" = Ok m /\ kind (rnn m) = CellLSTM.
Proof.
  split; [| split].
  - simpl. intros [H | [H | [H | [H | []]]]]; discriminate H.
  - intros e. unfold MyRNN_init. rewrite nn_Embedding_notebook. discriminate.
  - unfold MyRNN_init. rewrite nn_Embedding_notebook.
    eexists; split; reflexivity.
Qed.

(** ** Lists, results and shapes *)

Open Scope nat_scope.

(** Inverting [Ok] without normalising its arguments (a built model holds
    the whole embedding table). *)
Lemma Ok_inj {A : Type} (a b : A) : Ok a = Ok b -> a = b.
Proof. intros H. now injection H. Qed.

Lemma for_each_invariant {A S : Type} (P : S -> Prop) (body : S -> A -> pyresult S)
    (xs : list A) (s s' : S) :
  (forall s x s', P s -> body s x = Ok s' -> P s') ->
  P s -> for_each body xs s = Ok s' -> P s'.
Proof.
  intros Hbody. revert s. induction xs as [| x xs IH]; intros s Hs H.
  - apply Ok_inj in H. now subst s'.
  - cbn [for_each] in H. destruct (body s x) as [s1 |] eqn:E; cbn [bind] in H;
      [| discriminate].
    eapply IH; [| exact H]. eapply Hbody; eassumption.
Qed.

(** [mapM] succeeds when the function does on every element, and keeps
    the length. *)
Lemma mapM_ok {A B : Type} (f : A -> pyresult B) (P : B -> Prop) (l : list A) :
  Forall (fun x => exists y, f x = Ok y /\ P y) l ->
  exists ys, mapM f l = Ok ys /\ length ys = length l /\ Forall P ys.
Proof.
  induction 1 as [| x l (y & Hy & Py) _ (ys & Hys & Hlen & HP)]; simpl.
  - exists []. auto.
  - exists (y :: ys). rewrite Hy, Hys. simpl. auto.
Qed.

Lemma mapM_inv {A B : Type} (f : A -> pyresult B) (l : list A) (ys : list B) :
  mapM f l = Ok ys -> Forall2 (fun x y => f x = Ok y) l ys.
Proof.
  revert ys. induction l as [| x l IH]; simpl; intros ys H.
  - injection H as <-. constructor.
  - destruct (f x) as [y |] eqn:Hy; simpl in H; [| discriminate].
    destruct (mapM f l) as [zs |]; simpl in H; [| discriminate].
    injection H as <-. constructor; auto.
Qed.

Lemma mapi_from_length {A B : Type} (f : nat -> A -> B) (l : list A) (k : nat) :
  length (mapi_from k f l) = length l.
Proof.
  revert k. induction l as [| x l IH]; intros k; simpl; [reflexivity |].
  now rewrite IH.
Qed.

Lemma mapi_length {A B : Type} (f : nat -> A -> B) (l : list A) :
  length (mapi f l) = length l.
Proof. apply mapi_from_length. Qed.

Lemma mapi_from_Forall {A B : Type} (P : A -> Prop) (Q : B -> Prop)
    (f : nat -> A -> B) (l : list A) (k : nat) :
  (forall i x, P x -> Q (f i x)) -> Forall P l -> Forall Q (mapi_from k f l).
Proof.
  intros Hf H. revert k. induction H as [| x l Hx Hl IH]; intros k; simpl.
  - constructor.
  - constructor; [now apply Hf | apply IH].
Qed.

Lemma nth_error_mapi_from {A B : Type} (f : nat -> A -> B) (l : list A) (k i : nat) :
  nth_error (mapi_from k f l) i = option_map (f (k + i)%nat) (nth_error l i).
Proof.
  revert k i. induction l as [| x l IH]; intros k [| i]; simpl; try reflexivity.
  - now rewrite Nat.add_0_r.
  - rewrite IH. now rewrite Nat.add_succ_r.
Qed.

Lemma nth_error_mapi {A B : Type} (f : nat -> A -> B) (l : list A) (i : nat) :
  nth_error (mapi f l) i = option_map (f i) (nth_error l i).
Proof. unfold mapi. now rewrite nth_error_mapi_from. Qed.

Lemma map2_length {A B C : Type} (f : A -> B -> C) (a : list A) (b : list B) :
  length a = length b -> length (map2 f a b) = length a.
Proof.
  revert b. induction a as [| x a IH]; intros [| y b] H; simpl in *;
    try reflexivity; try discriminate.
  f_equal. apply IH. now injection H.
Qed.

Lemma map2_Forall {A B C : Type} (P : A -> Prop) (Q : B -> Prop) (S : C -> Prop)
    (f : A -> B -> C) (a : list A) (b : list B) :
  (forall x y, P x -> Q y -> S (f x y)) ->
  Forall P a -> Forall Q b -> Forall S (map2 f a b).
Proof.
  intros Hf Ha. revert b. induction Ha as [| x a Hx Ha IH]; intros b Hb.
  - constructor.
  - destruct Hb as [| y b Hy Hb]; simpl; constructor; [now apply Hf | now apply IH].
Qed.

Lemma nth_error_map2 {A B C : Type} (f : A -> B -> C) (a : list A) (b : list B)
    (i : nat) :
  nth_error (map2 f a b) i
  = match nth_error a i, nth_error b i with
    | Some x, Some y => Some (f x y)
    | _, _ => None
    end.
Proof.
  revert b i. induction a as [| x a IH]; intros [| y b] [| i]; simpl;
    try reflexivity.
  - now destruct (nth_error a i).
  - apply IH.
Qed.

Lemma map2_repeat {A B C : Type} (f : A -> B -> C) (a : A) (b : B) (n : nat) :
  map2 f (repeat a n) (repeat b n) = repeat (f a b) n.
Proof. induction n as [| n IH]; simpl; [reflexivity | now rewrite IH]. Qed.

Lemma set_row_length {A : Type} (i : nat) (row : A) (t : list A) :
  length (set_row i row t) = length t.
Proof.
  revert i. induction t as [| x t IH]; intros [| i]; simpl; try reflexivity.
  now rewrite IH.
Qed.

Lemma set_row_Forall {A : Type} (P : A -> Prop) (i : nat) (row : A) (t : list A) :
  P row -> Forall P t -> Forall P (set_row i row t).
Proof.
  intros Hr Ht. revert i. induction Ht as [| x t Hx Ht IH]; intros [| i]; simpl;
    constructor; auto.
Qed.

Lemma set_row_same {A : Type} (i : nat) (row : A) (t : list A) :
  i < length t -> nth_error (set_row i row t) i = Some row.
Proof.
  revert i. induction t as [| x t IH]; intros [| i] H; simpl in *; try lia.
  - reflexivity.
  - apply IH. lia.
Qed.

Lemma set_row_other {A : Type} (i j : nat) (row : A) (t : list A) :
  i <> j -> nth_error (set_row i row t) j = nth_error t j.
Proof.
  revert i j. induction t as [| x t IH]; intros [| i] [| j] H; simpl;
    try reflexivity; try congruence.
  apply IH. congruence.
Qed.

Lemma zeros_length (n : nat) : length (zeros n) = n.
Proof. apply repeat_length. Qed.

Lemma mk_vec_length (n : nat) (f : nat -> R) : length (mk_vec n f) = n.
Proof. unfold mk_vec. now rewrite length_map, length_seq. Qed.

Lemma mk_mat_shape (rows cols : nat) (f : nat -> nat -> R) :
  mat_shape rows cols (mk_mat rows cols f).
Proof.
  unfold mat_shape, mk_mat. split.
  - now rewrite length_map, length_seq.
  - apply Forall_map, Forall_forall. intros i _. apply mk_vec_length.
Qed.

Lemma set_row_shape (rows cols i : nat) (row : vec) (t : mat) :
  mat_shape rows cols t -> length row = cols -> mat_shape rows cols (set_row i row t).
Proof.
  intros [Hr Hc] Hrow. split.
  - now rewrite set_row_length.
  - now apply set_row_Forall.
Qed.

Lemma repeat_differs (x y : R) (n : nat) :
  x <> y -> (0 < n)%nat -> repeat x n <> repeat y n.
Proof.
  intros Hxy Hn E. destruct n as [| n]; [lia |]. simpl in E. congruence.
Qed.

(** ** Built models *)

Lemma MyRNN_init_ok (g : init_values) (tag : string) :
  exists m, MyRNN_init g tag = Ok m.
Proof.
  unfold MyRNN_init. rewrite nn_Embedding_notebook. cbn [bind]. eexists. reflexivity.
Qed.

Lemma MyRNN_init_embed (g : init_values) (tag : string) (m : MyRNN) :
  MyRNN_init g tag = Ok m ->
  num_embeddings (embed m) = vocabSize
  /\ embedding_dim (embed m) = embeddingSize
  /\ padding_idx (embed m) = Some pad.
Proof.
  unfold MyRNN_init. rewrite nn_Embedding_notebook. cbn [bind].
  intros H. apply Ok_inj in H. subst m. repeat split.
Qed.

Lemma MyRNN_init_well_built (g : init_values) (v : variant) (m : MyRNN) :
  MyRNN_init g (tag_of v) = Ok m -> well_built v m.
Proof.
  unfold MyRNN_init. rewrite nn_Embedding_notebook. intros H.
  destruct v; cbn [tag_of bind] in H; apply Ok_inj in H; subst m;
    (constructor; try reflexivity; cbn [embed emb_weight];
     apply set_row_shape; [apply mk_mat_shape | apply zeros_length]).
Qed.

Lemma set_training_well_built (v : variant) (b : bool) (m : MyRNN) :
  well_built v m -> well_built v (set_training b m).
Proof. intros []. constructor; assumption. Qed.

Lemma set_emb_weight_well_built (v : variant) (w : mat) (m : MyRNN) :
  well_built v m -> mat_shape vocabSize embeddingSize w ->
  well_built v (set_emb_weight w m).
Proof. intros [] Hw. constructor; assumption. Qed.

Lemma set_training_parameters (b : bool) (m : MyRNN) :
  parameters (set_training b m) = parameters m.
Proof. reflexivity. Qed.

Lemma with_parameters_embed (ps : list mat) (m : MyRNN) :
  embed (with_parameters ps m)
  = mkEmbedding (num_embeddings (embed m)) (embedding_dim (embed m))
                (padding_idx (embed m)) (hd [] ps).
Proof.
  unfold with_parameters.
  now destruct (store_directions (length (directions (rnn m))) (tl ps)).
Qed.

(** ** The layers of the forward pass *)

Lemma embedding_lookup_ok (e : Embedding) (V E tok : nat) :
  mat_shape V E (emb_weight e) -> tok < V ->
  exists row, embedding_lookup e tok = Ok row /\ length row = E.
Proof.
  intros [Hlen Hrows] Htok. unfold embedding_lookup.
  destruct (nth_error (emb_weight e) tok) as [row |] eqn:Hnth.
  - exists row. split; [reflexivity |].
    rewrite Forall_forall in Hrows. apply Hrows. eapply nth_error_In, Hnth.
  - apply nth_error_None in Hnth. lia.
Qed.

Lemma embedding_forward_ok (e : Embedding) (V E B : nat) (text : list (list nat)) :
  mat_shape V E (emb_weight e) ->
  forallb (fun row => length row =? B) text = true ->
  forallb (forallb (fun tok => tok <? V)) text = true ->
  exists t, embedding_forward e text = Ok t /\ tensor3_shape (length text) B E t.
Proof.
  intros He Hrect Htok. unfold embedding_forward, tensor3_shape.
  apply mapM_ok. rewrite forallb_forall in Hrect, Htok.
  apply Forall_forall. intros row Hin.
  specialize (Hrect row Hin). specialize (Htok row Hin).
  apply Nat.eqb_eq in Hrect. rewrite forallb_forall in Htok.
  destruct (mapM_ok (embedding_lookup e) (fun r => length r = E) row)
    as (m & Hm & Hlen & Hw).
  - apply Forall_forall. intros tok Htk. apply (embedding_lookup_ok e V E); [exact He |].
    apply Nat.ltb_lt. now apply Htok.
  - exists m. split; [exact Hm |]. split; [congruence | exact Hw].
Qed.

Lemma dropout_tensor3_shape (p : R) (z : mask) (T B E : nat) (t : tensor3) :
  tensor3_shape T B E t -> tensor3_shape T B E (dropout_tensor3 p z t).
Proof.
  intros [HT Hm]. unfold tensor3_shape, dropout_tensor3, mapi. split.
  - now rewrite mapi_from_length.
  - eapply mapi_from_Forall; [| exact Hm].
    intros i m [HB HE]. unfold mat_shape, dropout_mat, mapi. split.
    + now rewrite mapi_from_length.
    + eapply mapi_from_Forall; [| exact HE].
      intros j r Hr. unfold dropout_vec, mapi. now rewrite mapi_from_length.
Qed.

Lemma dropout_mat_shape (p : R) (z : mask) (path : list nat) (B E : nat) (m : mat) :
  mat_shape B E m -> mat_shape B E (dropout_mat p z path m).
Proof.
  intros [HB HE]. unfold mat_shape, dropout_mat, mapi. split.
  - now rewrite mapi_from_length.
  - eapply mapi_from_Forall; [| exact HE].
    intros j r Hr. unfold dropout_vec, mapi. now rewrite mapi_from_length.
Qed.

Lemma batch_size_at_0 (lengths : list nat) :
  forallb (fun l => 0 <? l) lengths = true -> batch_size_at lengths 0 = length lengths.
Proof.
  unfold batch_size_at. induction lengths as [| l ls IH]; simpl; [reflexivity |].
  intros H. apply andb_prop in H as [Hl Hls]. rewrite Hl. simpl. now rewrite IH.
Qed.

Lemma packable_ok (T B E : nat) (input : tensor3) (lengths : list nat) :
  tensor3_shape T B E input -> 0 < T -> 0 < B -> 0 < E ->
  length lengths = B ->
  forallb (fun l => (0 <? l) && (l <=? T)) lengths = true ->
  sorted_decreasing lengths = true ->
  packable input lengths = true.
Proof.
  intros [HT Hm] HT0 HB0 HE0 Hlen Hall Hsorted. unfold packable.
  destruct input as [| m0 input]; [simpl in HT; lia |].
  apply Forall_inv in Hm. destruct Hm as [Hm0 Hrows]. simpl hd.
  destruct m0 as [| r0 m0]; [simpl in Hm0; lia |].
  apply Forall_inv in Hrows. simpl hd.
  rewrite Hm0, Hrows, HT, Hlen, Nat.eqb_refl, Hall, Hsorted.
  replace (0 <? T * B * E) with true; [reflexivity |].
  symmetry. apply Nat.ltb_lt. repeat apply Nat.mul_pos_pos; assumption.
Qed.

(** On a well-formed input the packing succeeds, and the packed sequence
    starts with the whole batch. *)
Lemma packed_input_ok (v : variant) (m : MyRNN) (z1 : mask)
    (text : list (list nat)) (lengths : list nat) :
  well_built v m -> well_formed_input text lengths = true ->
  exists p, packed_input m z1 text lengths = Ok p
            /\ hd 0 (batch_sizes p) = length lengths.
Proof.
  intros Hwb Hwf. unfold well_formed_input in Hwf.
  repeat (apply andb_prop in Hwf as [Hwf ?]).
  apply Nat.ltb_lt in Hwf.
  match goal with H : (0 <? length lengths) = true |- _ => apply Nat.ltb_lt in H end.
  destruct (embedding_forward_ok (embed m) vocabSize embeddingSize (length lengths) text)
    as (e & He & Hshape); try assumption.
  { apply (wb_table v m Hwb). }
  unfold packed_input. rewrite He. simpl bind.
  assert (Hshape' : tensor3_shape (length text) (length lengths) embeddingSize
                      (if training m then dropout_tensor3 (dropout m) z1 e else e)).
  { destruct (training m); [now apply dropout_tensor3_shape | exact Hshape]. }
  unfold pack_padded_sequence.
  rewrite (packable_ok (length text) (length lengths) embeddingSize); try assumption;
    try reflexivity; [| unfold embeddingSize; lia].
  eexists. split; [reflexivity |]. simpl.
  destruct lengths as [| l ls]; [simpl in *; lia |].
  match goal with H : forallb _ (l :: ls) = true |- _ => rename H into Hall end.
  assert (Hpos : forallb (fun l => 0 <? l) (l :: ls) = true).
  { rewrite forallb_forall in *. intros x Hx. specialize (Hall x Hx).
    now apply andb_prop in Hall as [? _]. }
  simpl hd. simpl in Hpos. apply andb_prop in Hpos as [Hl Hls].
  apply Nat.ltb_lt in Hl. destruct l as [| l]; [lia |].
  cbn [seq map hd]. apply batch_size_at_0. simpl. now rewrite Hls.
Qed.

Lemma linear_rows_ok (l : Linear) (B : nat) (rows : mat) :
  length (lin_weight l) = 1 -> length (lin_bias l) = 1 ->
  mat_shape B (in_features l) rows ->
  exists y, mapM (linear_vec l) rows = Ok y /\ mat_shape B 1 y.
Proof.
  intros Hw Hb [HB Hrows].
  destruct (mapM_ok (linear_vec l) (fun r => length r = 1) rows) as (y & Hy & Hlen & H1).
  - eapply Forall_impl; [| exact Hrows]. intros x Hx. unfold linear_vec.
    rewrite Hx, Nat.eqb_refl. eexists. split; [reflexivity |].
    cbv beta. rewrite map2_length; [exact Hw | now rewrite Hw, Hb].
  - exists y. split; [exact Hy |]. split; [congruence | exact H1].
Qed.

(** ** The forward pass *)

Section ForwardPass.

Context {K : Torch}.
Hypothesis HK : kernel_shapes K.

(** The statements of [forward] after the packing, on a built model: the
    classifier reads [classifier_input]. *)
Lemma forward_selects (v : variant) (m : MyRNN) (z1 z2 : mask)
    (text : list (list nat)) (lengths : list nat) (p : PackedSequence) :
  well_built v m ->
  packed_input m z1 text lengths = Ok p ->
  forward m z1 z2 text lengths
  = nn_Linear_forward (dense m)
      (nn_Dropout (training m) (dropout m) z2 (T2 (classifier_input v m p))).
Proof.
  intros Hwb Hp. unfold forward. unfold packed_input in Hp.
  destruct (embedding_forward (embed m) text) as [e |]; simpl bind in *;
    [| discriminate].
  rewrite Hp. simpl bind.
  destruct Hwb as [HL Hb Hk Hh Hd _ _ _ _].
  unfold nn_Recurrent_forward, select_hidden, classifier_input, final_hidden.
  rewrite HL, Hb, Hk.
  destruct (directions (rnn m)) as [| d0 [| d1 [| d2 ds]]];
    destruct v; simpl in Hd; try discriminate Hd; try reflexivity.
  cbn -[nn_Linear_forward nn_Dropout].
  unfold torch_cat1.
  destruct (HK CellLSTM (hidden_size (rnn m)) d0 false p) as [H0 _].
  destruct (HK CellLSTM (hidden_size (rnn m)) d1 true p) as [H1 _].
  rewrite H0, H1, Nat.eqb_refl. reflexivity.
Qed.

Lemma classifier_input_shape (v : variant) (m : MyRNN) (p : PackedSequence) :
  well_built v m ->
  mat_shape (hd 0 (batch_sizes p)) (in_features (dense m)) (classifier_input v m p).
Proof.
  intros Hwb. rewrite (wb_in v m Hwb).
  assert (Hd : forall d, mat_shape (hd 0 (batch_sizes p)) hiddenSize (final_hidden m d p)).
  { intros d. unfold final_hidden. rewrite (wb_hidden v m Hwb). apply HK. }
  destruct v; cbn [classifier_input]; try (rewrite Nat.mul_1_r; apply Hd).
  destruct (Hd 0) as [H0 W0], (Hd 1) as [H1 W1]. split.
  - rewrite map2_length; congruence.
  - eapply map2_Forall; [| exact W0 | exact W1].
    cbv beta. intros x y Hx Hy. rewrite length_app, Hx, Hy. lia.
Qed.

(** On a built model and a well-formed input, [forward] returns a matrix
    with one row per example and one column. *)
Lemma forward_shape (v : variant) (m : MyRNN) (z1 z2 : mask)
    (text : list (list nat)) (lengths : list nat) :
  well_built v m -> well_formed_input text lengths = true ->
  exists y, forward m z1 z2 text lengths = Ok (T2 y)
            /\ mat_shape (length lengths) 1 y.
Proof.
  intros Hwb Hwf.
  destruct (packed_input_ok v m z1 text lengths Hwb Hwf) as (p & Hp & HB).
  rewrite (forward_selects v m z1 z2 text lengths p Hwb Hp).
  pose proof (classifier_input_shape v m p Hwb) as Hshape. rewrite HB in Hshape.
  assert (Hdrop : exists h, nn_Dropout (training m) (dropout m) z2
                              (T2 (classifier_input v m p)) = T2 h
                            /\ mat_shape (length lengths) (in_features (dense m)) h).
  { unfold nn_Dropout. destruct (training m); eexists; (split; [reflexivity |]);
      [now apply dropout_mat_shape | exact Hshape]. }
  destruct Hdrop as (h & -> & Hh).
  destruct (linear_rows_ok (dense m) (length lengths) h
              (wb_weight v m Hwb) (wb_bias v m Hwb) Hh) as (y & Hy & Hys).
  exists y. simpl. rewrite Hy. split; [reflexivity | exact Hys].
Qed.

(** C7.  For each of the four variants and every well-formed padded batch,
    in training or evaluation mode and whatever the dropout masks, the
    forward pass returns a matrix with one row per example of the batch
    and a single column: one logit per example. *)
Theorem forward_output_shape (v : variant) (m : MyRNN) (z1 z2 : mask)
    (text : list (list nat)) (lengths : list nat) :
  well_built v m -> well_formed_input text lengths = true ->
  exists y, forward m z1 z2 text lengths = Ok (T2 y)
            /\ mat_shape (length lengths) 1 y.
Proof. apply forward_shape. Qed.

(** C8.  On a built model, the tensor handed to dropout and the linear
    classifier is the final hidden state of the single layer for RNN, GRU
    and LSTM, and for BiLSTM the final forward state and the final backward
    state of each example joined along the feature axis. *)
Theorem forward_classifier_input (v : variant) (m : MyRNN) (z1 z2 : mask)
    (text : list (list nat)) (lengths : list nat) (p : PackedSequence) :
  well_built v m ->
  packed_input m z1 text lengths = Ok p ->
  forward m z1 z2 text lengths
  = nn_Linear_forward (dense m)
      (nn_Dropout (training m) (dropout m) z2
         (T2 (match v with
              | BiLSTM => map2 (@app R) (final_hidden m 0 p) (final_hidden m 1 p)
              | _ => final_hidden m 0 p
              end))).
Proof.
  intros Hwb Hp. rewrite (forward_selects v m z1 z2 text lengths p Hwb Hp).
  destruct v; reflexivity.
Qed.

End ForwardPass.

(** Runs with the stand-in for torch. *)

Lemma demo_kernel_shapes : kernel_shapes demo_torch.
Proof.
  intros c hid params rev p. simpl. unfold demo_direction, mat_shape. simpl. split.
  - apply repeat_length.
  - apply Forall_forall. intros r Hr. apply repeat_spec in Hr. subst r.
    apply zeros_length.
Qed.

Lemma forward_output_shape_witness :
  exists m, MyRNN_init (fun _ _ _ => 0%R) "BiLSTM" = Ok m
  /\ exists y, forward (K := demo_torch) m (fun _ => false) (fun _ => true)
                 [[5; 7]; [3; 1]] [2; 1] = Ok (T2 y)
               /\ mat_shape 2 1 y.
Proof.
  eexists. split.
  - unfold MyRNN_init. rewrite nn_Embedding_notebook. reflexivity.
  - apply (forward_output_shape (K := demo_torch) demo_kernel_shapes BiLSTM).
    + apply (MyRNN_init_well_built (fun _ _ _ => 0%R)).
      unfold MyRNN_init. rewrite nn_Embedding_notebook. reflexivity.
    + reflexivity.
Defined.

Lemma forward_classifier_input_witness :
  exists m, MyRNN_init (fun _ _ _ => 0%R) "GRU" = Ok m
  /\ exists p, packed_input m (fun _ => false) [[5; 7]; [3; 1]] [2; 1] = Ok p
  /\ forward (K := demo_torch) m (fun _ => false) (fun _ => false)
       [[5; 7]; [3; 1]] [2; 1]
     = nn_Linear_forward (dense m)
         (nn_Dropout (training m) (dropout m) (fun _ => false)
            (T2 (final_hidden (K := demo_torch) m 0 p))).
Proof.
  eexists. split.
  - unfold MyRNN_init. rewrite nn_Embedding_notebook. reflexivity.
  - match goal with |- exists p, packed_input ?m _ _ _ = _ /\ _ =>
      assert (Hwb : well_built GRU m)
    end.
    { apply (MyRNN_init_well_built (fun _ _ _ => 0%R)).
      unfold MyRNN_init. rewrite nn_Embedding_notebook. reflexivity. }
    destruct (packed_input_ok GRU _ (fun _ => false) [[5; 7]; [3; 1]] [2; 1]
                Hwb eq_refl) as (p & Hp & _).
    exists p. split; [exact Hp |].
    exact (forward_classifier_input (K := demo_torch) demo_kernel_shapes
             GRU _ _ _ _ _ p Hwb Hp).
Defined.

(** ** The accuracy metric *)

Open Scope R_scope.

Lemma count_true_le (l : list bool) : (count_true l <= length l)%nat.
Proof. unfold count_true. apply filter_length_le. Qed.

Lemma ratio_in_unit_interval (c n : nat) :
  (c <= n)%nat -> (0 < n)%nat -> 0 <= INR c / INR n <= 1.
Proof.
  intros Hc Hn.
  pose proof (pos_INR c) as H0. apply le_INR in Hc. apply lt_0_INR in Hn.
  split.
  - apply Rmult_le_pos; [exact H0 |]. left. now apply Rinv_0_lt_compat.
  - apply (Rmult_le_reg_r (INR n)); [exact Hn |].
    unfold Rdiv. rewrite Rmult_assoc, Rinv_l, Rmult_1_r, Rmult_1_l; lra.
Qed.

Lemma tensor_eq_aligned (a : list bool) (t : vec) :
  length a = length t ->
  exists agree, tensor_eq a t = Ok agree /\ length agree = length a.
Proof.
  intros H. unfold tensor_eq. rewrite H, Nat.eqb_refl.
  eexists. split; [reflexivity |]. rewrite map2_length; congruence.
Qed.

(** On aligned, non-empty predictions and targets [batchAccuracy] returns
    a fraction of the batch. *)
Lemma batchAccuracy_aligned (preds targets : vec) :
  length preds = length targets -> preds <> [] ->
  exists a, batchAccuracy preds targets = Ok a /\ 0 <= a <= 1.
Proof.
  intros Hlen Hne. unfold batchAccuracy.
  destruct (tensor_eq_aligned (map ge0 preds) targets) as (agree & -> & Hagree).
  { now rewrite length_map. }
  rewrite length_map in Hagree. simpl bind.
  assert (Hn : (0 < length preds)%nat).
  { destruct preds; [congruence | simpl; lia]. }
  destruct (length preds =? 0)%nat eqn:E; [apply Nat.eqb_eq in E; lia |].
  eexists. split; [reflexivity |].
  apply ratio_in_unit_interval; [| exact Hn].
  rewrite <- Hagree. apply count_true_le.
Qed.

Lemma batchAccuracy_range (preds targets : vec) (a : R) :
  length preds = length targets -> batchAccuracy preds targets = Ok a -> 0 <= a <= 1.
Proof.
  intros Hlen Ha. destruct preds as [| x preds].
  - unfold batchAccuracy in Ha. destruct (tensor_eq _ _); simpl in Ha; discriminate.
  - destruct (batchAccuracy_aligned (x :: preds) targets Hlen) as (a' & Ha' & Hr).
    + discriminate.
    + rewrite Ha in Ha'. apply Ok_inj in Ha'. now subst a'.
Qed.

Lemma criterion_aligned (input target : vec) (loss : R) :
  criterion input target = Ok loss -> length input = length target.
Proof.
  unfold criterion. destruct (length input =? length target)%nat eqn:E;
    [intros _; now apply Nat.eqb_eq | discriminate].
Qed.

Lemma squeeze1_column (B : nat) (y : mat) :
  mat_shape B 1 y ->
  squeeze1 (T2 y) = Ok (T1 (map (hd 0) y)) /\ length (map (hd 0) y) = B.
Proof.
  intros [HB Hcols]. unfold squeeze1.
  replace (forallb (fun r => (length r =? 1)%nat) y) with true.
  - split; [reflexivity | now rewrite length_map].
  - symmetry. apply forallb_forall. rewrite Forall_forall in Hcols.
    intros r Hr. apply Nat.eqb_eq. now apply Hcols.
Qed.

(** Why the bound asks for aligned arguments: called on one prediction
    and two labels (which the evaluation loop never does, the loss having
    rejected them first), torch broadcasts the comparison and the count of
    agreements is divided by the one prediction. *)
Remark batchAccuracy_broadcast_exceeds_one : batchAccuracy [1] [1; 1] = Ok (2 / 1).
Proof.
  unfold batchAccuracy. cbn [map tensor_eq length Nat.eqb map2 bind hd].
  assert (H : eq_promoted (ge0 1) 1 = true).
  { unfold ge0, eq_promoted. destruct (Rle_dec 0 1) as [_ | H]; [| lra].
    destruct (Req_dec_T 1 1); [reflexivity | congruence]. }
  rewrite H. reflexivity.
Qed.

(** ** Thresholding at zero *)

Lemma ge0_sign_preserving (f : R -> R) (x : R) :
  (forall a b, a < b -> f a < f b) -> f 0 = 0 -> ge0 (f x) = ge0 x.
Proof.
  intros Hmono H0. unfold ge0.
  destruct (Rle_dec 0 (f x)) as [Hf | Hf], (Rle_dec 0 x) as [Hx | Hx];
    try reflexivity; exfalso.
  - apply Rnot_le_lt in Hx. apply Hmono in Hx. lra.
  - apply Hf. destruct Hx as [Hx | <-]; [apply Hmono in Hx |]; lra.
Qed.

Lemma rounded_sign_preserving (f : R -> R) (preds : vec) :
  (forall a b, a < b -> f a < f b) -> f 0 = 0 ->
  map ge0 (map f preds) = map ge0 preds.
Proof.
  intros Hmono H0. rewrite map_map. apply map_ext. intros x.
  now apply ge0_sign_preserving.
Qed.

Lemma batchAccuracy_rescaled (f : R -> R) (preds targets : vec) :
  (forall a b, a < b -> f a < f b) -> f 0 = 0 ->
  batchAccuracy (map f preds) targets = batchAccuracy preds targets.
Proof.
  intros Hmono H0. unfold batchAccuracy.
  rewrite (rounded_sign_preserving f preds Hmono H0), length_map. reflexivity.
Qed.

(** The batch of [n] identical sequences, all with logit [x], rescaled by
    a positive factor. *)
Lemma batchAccuracy_identical_scaled (c x : R) (n : nat) (targets : vec) :
  0 < c ->
  batchAccuracy (map (Rmult c) (repeat x n)) targets
  = batchAccuracy (repeat x n) targets.
Proof.
  intros Hc. apply batchAccuracy_rescaled.
  - intros a b Hab. now apply Rmult_lt_compat_l.
  - apply Rmult_0_r.
Qed.



Lemma ge0_zero : ge0 0 = true.
Proof. unfold ge0. destruct (Rle_dec 0 0) as [_ | H]; [reflexivity | lra]. Qed.

Lemma eq_promoted_true (t : R) : eq_promoted true t = true <-> t = 1.
Proof.
  unfold eq_promoted. destruct (Req_dec_T 1 t) as [H | H]; split; intros E;
    congruence.
Qed.



(** A batch of one zero logit: right when the label is 1, wrong when it
    is 0. *)
Example batchAccuracy_zero_logit_label_one : batchAccuracy [0] [1] = Ok (1 / 1).
Proof.
  unfold batchAccuracy. cbn [map tensor_eq length Nat.eqb map2 bind].
  rewrite ge0_zero. unfold eq_promoted.
  destruct (Req_dec_T 1 1); [reflexivity | congruence].
Qed.

Example batchAccuracy_zero_logit_label_zero : batchAccuracy [0] [0] = Ok (0 / 1).
Proof.
  unfold batchAccuracy. cbn [map tensor_eq length Nat.eqb map2 bind].
  rewrite ge0_zero. unfold eq_promoted.
  destruct (Req_dec_T 1 0) as [H | H]; [lra | reflexivity].
Qed.

(** ** The evaluation loop *)

Section Evaluation.

Context {K : Torch}.
Hypothesis HK : kernel_shapes K.

(** Whatever the model and the batch, an accuracy that the loop body
    produces is a fraction. *)
Lemma eval_batch_range (m : MyRNN) (b : Batch) (a : R) :
  eval_batch m b = Ok a -> 0 <= a <= 1.
Proof.
  unfold eval_batch.
  destruct (forward m (bernoulli 0) (bernoulli 1) (text b) (textLen b)) as [out |];
    simpl bind; [| discriminate].
  destruct (squeeze1 out) as [[x | p | y | t] |]; simpl bind; try discriminate.
  destruct (criterion p (label b)) as [loss |] eqn:Hc; simpl bind; [| discriminate].
  apply batchAccuracy_range. eapply criterion_aligned, Hc.
Qed.

Lemma accumulate_range (m : MyRNN) (l : list Batch) (s s' : R) :
  for_each (fun accuracy batch => acc <- eval_batch m batch ;; Ok (accuracy + acc)) l s
  = Ok s' ->
  s <= s' <= s + INR (length l).
Proof.
  revert s. induction l as [| b l IH]; intros s H.
  - simpl in H. apply Ok_inj in H. subst s'. simpl. lra.
  - cbn [for_each] in H.
    destruct (eval_batch m b) as [a |] eqn:Ha; simpl bind in H; [| discriminate].
    apply eval_batch_range in Ha. apply IH in H.
    change (length (b :: l)) with (S (length l)). rewrite S_INR. lra.
Qed.

(** Whatever the model and the batches, a percentage that the evaluation
    of a model prints lies between 0 and 100. *)
Lemma evaluate_model_range (m : MyRNN) (testIterator : list Batch)
    (tag : string) (pct : R) :
  evaluate_model testIterator m = Ok (EvalLine tag pct) -> 0 <= pct <= 100.
Proof.
  unfold evaluate_model.
  destruct (for_each _ testIterator 0) as [acc |] eqn:Hacc; simpl bind; [| discriminate].
  destruct (length testIterator =? 0)%nat eqn:E; [discriminate |].
  intros H. apply Ok_inj in H. injection H as _ <-.
  apply accumulate_range in Hacc. apply Nat.eqb_neq in E.
  assert (Hn : 0 < INR (length testIterator)) by (apply lt_0_INR; lia).
  assert (Hq : 0 <= acc / INR (length testIterator) <= 1).
  { split.
    - apply Rmult_le_pos; [lra | left; now apply Rinv_0_lt_compat].
    - apply (Rmult_le_reg_r (INR (length testIterator))); [exact Hn |].
      unfold Rdiv. rewrite Rmult_assoc, Rinv_l, Rmult_1_r, Rmult_1_l; lra. }
  lra.
Qed.

(** On a built model and a well-formed batch the loop body does produce an
    accuracy. *)
Lemma eval_batch_ok (v : variant) (m : MyRNN) (b : Batch) :
  well_built v m -> well_formed_batch b = true ->
  exists a, eval_batch m b = Ok a /\ 0 <= a <= 1.
Proof.
  intros Hwb Hwf. unfold well_formed_batch in Hwf.
  apply andb_prop in Hwf as [Hin Hlab]. apply Nat.eqb_eq in Hlab.
  destruct (forward_shape HK v m (bernoulli 0) (bernoulli 1) (text b) (textLen b)
              Hwb Hin) as (y & Hy & Hshape).
  destruct (squeeze1_column _ y Hshape) as [Hsq Hlen].
  assert (HB : (0 < length (textLen b))%nat).
  { unfold well_formed_input in Hin. repeat (apply andb_prop in Hin as [Hin ?]).
    match goal with H : (0 <? length (textLen b))%nat = true |- _ =>
      now apply Nat.ltb_lt in H end. }
  destruct (batchAccuracy_aligned (map (hd 0) y) (label b)) as (a & Ha & Hr).
  - congruence.
  - intros E. rewrite E in Hlen. simpl in Hlen. lia.
  - exists a. split; [| exact Hr].
    unfold eval_batch. rewrite Hy. cbn [bind]. rewrite Hsq. cbn [bind].
    unfold criterion. rewrite Hlen, Hlab, Nat.eqb_refl. cbn [bind]. exact Ha.
Qed.

Lemma accumulate_ok (v : variant) (m : MyRNN) (l : list Batch) (s : R) :
  well_built v m -> forallb well_formed_batch l = true ->
  exists s',
    for_each (fun accuracy batch => acc <- eval_batch m batch ;; Ok (accuracy + acc)) l s
    = Ok s'.
Proof.
  intros Hwb. revert s. induction l as [| b l IH]; intros s Hl.
  - exists s. reflexivity.
  - simpl in Hl. apply andb_prop in Hl as [Hb Hl].
    destruct (eval_batch_ok v m b Hwb Hb) as (a & Ha & _).
    destruct (IH (s + a) Hl) as (s' & Hs').
    exists s'. cbn [for_each]. rewrite Ha. simpl bind. exact Hs'.
Qed.

(** C5.  On a model of any of the four variants and an evaluation stream
    of well-formed (hence non-empty) batches: [batchAccuracy] on aligned
    non-empty predictions and labels is a fraction in [0, 1]; the loop
    body produces such a fraction for every batch of the stream; and, the
    stream having at least one batch, the model's evaluation prints a
    percentage in [0, 100]. *)
Theorem evaluation_accuracy_bounds (v : variant) (m : MyRNN)
    (testIterator : list Batch) :
  well_built v m ->
  forallb well_formed_batch testIterator = true ->
  (forall preds targets, length preds = length targets -> preds <> [] ->
     exists a, batchAccuracy preds targets = Ok a /\ 0 <= a <= 1)
  /\ (forall b, In b testIterator -> exists a, eval_batch m b = Ok a /\ 0 <= a <= 1)
  /\ (testIterator <> [] ->
      exists pct, evaluate_model testIterator m = Ok (EvalLine (name m) pct)
                  /\ 0 <= pct <= 100).
Proof.
  intros Hwb Hall. split; [| split].
  - apply batchAccuracy_aligned.
  - intros b Hb. rewrite forallb_forall in Hall.
    apply (eval_batch_ok v m b Hwb). now apply Hall.
  - intros Hne. destruct (accumulate_ok v m testIterator 0 Hwb Hall) as (acc & Hacc).
    assert (Hrun : exists pct, evaluate_model testIterator m = Ok (EvalLine (name m) pct)).
    { unfold evaluate_model. rewrite Hacc. simpl bind.
      destruct testIterator; [congruence |]. eexists. reflexivity. }
    destruct Hrun as (pct & Hpct). exists pct. split; [exact Hpct |].
    eapply evaluate_model_range, Hpct.
Qed.


End Evaluation.

Lemma evaluation_accuracy_bounds_witness :
  exists m, MyRNN_init (fun _ _ _ => 0) "LSTM" = Ok m
  /\ (forall preds targets, length preds = length targets -> preds <> [] ->
        exists a, batchAccuracy preds targets = Ok a /\ 0 <= a <= 1)
  /\ (forall b, In b [mkBatch [[5; 7]; [3; 1]]%nat [2; 1]%nat [1; 0]] ->
        exists a, eval_batch (K := demo_torch) m b = Ok a /\ 0 <= a <= 1)
  /\ ([mkBatch [[5; 7]; [3; 1]]%nat [2; 1]%nat [1; 0]] <> [] ->
      exists pct,
        evaluate_model (K := demo_torch)
          [mkBatch [[5; 7]; [3; 1]]%nat [2; 1]%nat [1; 0]] m
        = Ok (EvalLine (name m) pct)
        /\ 0 <= pct <= 100).
Proof.
  eexists. split.
  - unfold MyRNN_init. rewrite nn_Embedding_notebook. reflexivity.
  - apply (evaluation_accuracy_bounds (K := demo_torch) demo_kernel_shapes LSTMv).
    + apply (MyRNN_init_well_built (fun _ _ _ => 0)).
      unfold MyRNN_init. rewrite nn_Embedding_notebook. reflexivity.
    + reflexivity.
Defined.

(** ** Loading the pretrained table *)

Lemma broadcast_row_zeros (old r : vec) :
  broadcast_row old (zeros embeddingSize) = Ok r -> r = zeros embeddingSize.
Proof.
  unfold broadcast_row. rewrite zeros_length.
  destruct (embeddingSize =? length old)%nat.
  - intros H. apply Ok_inj in H. now subst r.
  - discriminate.
Qed.

Lemma setitem_zeros (t t' : mat) (i : nat) :
  setitem t i (zeros embeddingSize) = Ok t' ->
  t' = set_row i (zeros embeddingSize) t /\ (i < length t)%nat.
Proof.
  unfold setitem. destruct (nth_error t i) as [old |] eqn:E; [| discriminate].
  destruct (broadcast_row old (zeros embeddingSize)) as [r |] eqn:Er; cbn [bind];
    [| discriminate].
  intros H. apply Ok_inj in H. subst t'. apply broadcast_row_zeros in Er. subst r.
  split; [reflexivity |]. apply nth_error_Some. congruence.
Qed.

(** Whatever the pretrained matrix, when the loading of a model completes
    its rows [unk] and [pad] are zero. *)
Lemma load_pretrained_reserved_rows (reviewVocabVectors : mat) (m m' : MyRNN) :
  load_pretrained reviewVocabVectors m = Ok m' ->
  nth_error (emb_weight (embed m')) unk = Some (zeros embeddingSize)
  /\ nth_error (emb_weight (embed m')) pad = Some (zeros embeddingSize)
  /\ num_embeddings (embed m') = num_embeddings (embed m)
  /\ embedding_dim (embed m') = embedding_dim (embed m)
  /\ padding_idx (embed m') = padding_idx (embed m).
Proof.
  unfold load_pretrained.
  destruct (copy_ _ _) as [w1 |]; cbn [bind]; [| discriminate].
  destruct (setitem w1 unk _) as [w2 |] eqn:E2; cbn [bind]; [| discriminate].
  destruct (setitem w2 pad _) as [w3 |] eqn:E3; cbn [bind]; [| discriminate].
  intros H. apply Ok_inj in H. subst m'.
  apply setitem_zeros in E2 as [-> H2]. apply setitem_zeros in E3 as [-> H3].
  cbn [set_emb_weight embed emb_weight num_embeddings embedding_dim padding_idx].
  repeat split.
  - rewrite set_row_other by (unfold pad, unk; lia). now apply set_row_same.
  - now apply set_row_same.
Qed.

Lemma copy_ok (rows cols : nat) (dst src : mat) :
  mat_shape rows cols dst -> mat_shape rows cols src ->
  exists w, copy_ dst src = Ok w /\ mat_shape rows cols w.
Proof.
  intros [Hd Wd] [Hs Ws]. unfold copy_. rewrite Hs, Hd, Nat.eqb_refl.
  destruct (mapM_ok (fun ds => broadcast_row (fst ds) (snd ds))
              (fun r => length r = cols) (combine dst src)) as (w & Hw & Hlen & Hcols).
  - apply Forall_forall. intros [d s] Hin. cbn [fst snd].
    rewrite Forall_forall in Wd, Ws.
    pose proof (Wd d (in_combine_l _ _ _ _ Hin)) as Hdl.
    pose proof (Ws s (in_combine_r _ _ _ _ Hin)) as Hsl.
    unfold broadcast_row. rewrite Hsl, Hdl, Nat.eqb_refl. now exists s.
  - exists w. split; [exact Hw |]. split; [| exact Hcols].
    rewrite Hlen, length_combine, Hd, Hs. apply Nat.min_id.
Qed.

Lemma setitem_zeros_ok (rows : nat) (t : mat) (i : nat) :
  mat_shape rows embeddingSize t -> (i < rows)%nat ->
  exists t', setitem t i (zeros embeddingSize) = Ok t'
             /\ mat_shape rows embeddingSize t'.
Proof.
  intros [Hr Hc] Hi. unfold setitem.
  destruct (nth_error t i) as [old |] eqn:E.
  - rewrite Forall_forall in Hc. pose proof (Hc old (nth_error_In _ _ E)) as Hold.
    unfold broadcast_row. rewrite zeros_length, Hold, Nat.eqb_refl. cbn [bind].
    eexists. split; [reflexivity |].
    apply set_row_shape; [| apply zeros_length]. split; [exact Hr |].
    now apply Forall_forall.
  - apply nth_error_None in E. lia.
Qed.

(** Loading a table of the right shape into a built model succeeds and
    keeps the model built. *)
Lemma load_pretrained_ok (v : variant) (reviewVocabVectors : mat) (m : MyRNN) :
  well_built v m -> mat_shape vocabSize embeddingSize reviewVocabVectors ->
  exists m', load_pretrained reviewVocabVectors m = Ok m' /\ well_built v m'.
Proof.
  intros Hwb Hshape. unfold load_pretrained.
  destruct (copy_ok _ _ _ _ (wb_table v m Hwb) Hshape) as (w1 & -> & H1). cbn [bind].
  destruct (setitem_zeros_ok vocabSize w1 unk H1) as (w2 & -> & H2).
  { apply Nat.ltb_lt. reflexivity. }
  cbn [bind].
  destruct (setitem_zeros_ok vocabSize w2 pad H2) as (w3 & -> & H3).
  { apply Nat.ltb_lt. reflexivity. }
  cbn [bind]. eexists. split; [reflexivity |].
  now apply set_emb_weight_well_built.
Qed.

(** ** The embedding gradient and the Adam step *)

Lemma nth_error_add_at (acc : mat) (i k : nat) (g : vec) :
  nth_error (add_at acc i g) k
  = if (k =? i)%nat then option_map (fun row => map2 Rplus row g) (nth_error acc k)
    else nth_error acc k.
Proof.
  unfold add_at. rewrite nth_error_mapi.
  destruct (k =? i)%nat; [reflexivity |]. now destruct (nth_error acc k).
Qed.

(** A row of the embedding gradient that no looked-up position feeds
    stays as it started. *)
Lemma embedding_backward_untouched (e : Embedding) (k : nat)
    (positions : list (nat * vec)) (acc : mat) :
  (forall ig, In ig positions -> is_padding e (fst ig) = false -> fst ig <> k) ->
  nth_error
    (fold_left (fun acc ig => if is_padding e (fst ig) then acc
                              else add_at acc (fst ig) (snd ig)) positions acc) k
  = nth_error acc k.
Proof.
  revert acc. induction positions as [| ig positions IH]; intros acc H; simpl.
  - reflexivity.
  - rewrite IH by (intros; apply H; [now right | assumption]).
    destruct (is_padding e (fst ig)) eqn:E; [reflexivity |].
    rewrite nth_error_add_at.
    destruct (k =? fst ig)%nat eqn:Ek; [| reflexivity].
    apply Nat.eqb_eq in Ek. exfalso. apply (H ig); [now left | exact E | congruence].
Qed.

(** The padding row of the embedding gradient is zero, whatever gradient
    arrives at the lookup. *)
Lemma embedding_backward_padding_row (e : Embedding) (p : nat)
    (text : list (list nat)) (d_out : tensor3) :
  padding_idx e = Some p -> (p < num_embeddings e)%nat ->
  nth_error (embedding_backward e text d_out) p = Some (zeros (embedding_dim e)).
Proof.
  intros Hp Hlt. unfold embedding_backward.
  rewrite embedding_backward_untouched.
  - now apply nth_error_repeat.
  - intros ig _ Hpad Heq. unfold is_padding in Hpad. rewrite Hp in Hpad.
    apply Nat.eqb_neq in Hpad. congruence.
Qed.

(** Row [i] of the first parameter after an Adam step, from row [i] of the
    parameter, of its two moment estimates and of its gradient. *)
Lemma adam_step_first_row (st : AdamState) (p g m v : mat) (ps gs ms vs : list mat)
    (i : nat) (rp rg rm rv : vec) :
  exp_avg st = m :: ms -> exp_avg_sq st = v :: vs ->
  nth_error p i = Some rp -> nth_error g i = Some rg ->
  nth_error m i = Some rm -> nth_error v i = Some rv ->
  let t := S (step st) in
  let rm' := map2 adam_avg rm rg in
  let rv' := map2 adam_avg_sq rv rg in
  let st' := fst (adam_step st (p :: ps) (g :: gs)) in
  let ps' := snd (adam_step st (p :: ps) (g :: gs)) in
  nth_error (hd [] (exp_avg st')) i = Some rm'
  /\ nth_error (hd [] (exp_avg_sq st')) i = Some rv'
  /\ nth_error (hd [] ps') i
     = Some (map2 (adam_update t) rp (map2 Rdiv rm' (map (adam_denom t) rv'))).
Proof.
  intros Hm Hv Hp Hg Hrm Hrv. unfold adam_step, pointwise. rewrite Hm, Hv.
  cbn [fst snd exp_avg exp_avg_sq map2 map hd].
  repeat rewrite ?nth_error_map2, ?nth_error_map, ?Hp, ?Hg, ?Hrm, ?Hrv; cbn [option_map].
  repeat split.
Qed.

Lemma adam_zero_row (t n : nat) :
  map2 adam_avg (zeros n) (zeros n) = zeros n
  /\ map2 adam_avg_sq (zeros n) (zeros n) = zeros n
  /\ map2 (adam_update t) (zeros n)
       (map2 Rdiv (zeros n) (map (adam_denom t) (zeros n))) = zeros n.
Proof.
  unfold zeros. rewrite map_repeat, !map2_repeat.
  repeat split; f_equal.
  - unfold adam_avg. ring.
  - unfold adam_avg_sq. ring.
  - unfold adam_update, Rdiv. ring.
Qed.

(** The first Adam step moves a zero entry whose gradient is not zero. *)
Lemma adam_first_update_nonzero (g : R) :
  g <> 0 -> adam_update 1 0 (adam_avg 0 g / adam_denom 1 (adam_avg_sq 0 g)) <> 0.
Proof.
  intros Hg.
  unfold adam_update, adam_avg, adam_avg_sq, adam_denom, lr, beta1, beta2, eps.
  assert (Hs : 0 < sqrt (1 - 0.999 ^ 1)) by (apply sqrt_lt_R0; lra).
  assert (Hq : 0 <= sqrt (0.999 * 0 + (1 - 0.999) * (g * g)) / sqrt (1 - 0.999 ^ 1)).
  { apply Rmult_le_pos; [apply sqrt_pos | left; now apply Rinv_0_lt_compat]. }
  assert (Hl : 0 < 1e-3 / (1 - 0.9 ^ 1)) by (apply Rdiv_lt_0_compat; lra).
  rewrite Rplus_0_l. apply Rmult_integral_contrapositive_currified; [lra |].
  apply Rmult_integral_contrapositive_currified.
  - intros E. apply Hg. lra.
  - apply Rinv_neq_0_compat. lra.
Qed.

(** ** The reserved rows of the embedding table in training *)

Section Training.

Context {K : Torch}.
Hypothesis HK : kernel_shapes K.

(** One training step keeps the padding row frozen. *)
Lemma train_batch_frozen (s s' : TrainState) (b : Batch) :
  frozen_padding s -> train_batch s b = Ok s' -> frozen_padding s'.
Proof.
  intros [Hidx Hdim Hnum Hw Hm Hv] H. unfold train_batch in H.
  destruct (forward _ _ _ _ _) as [out |]; cbn [bind] in H; [| discriminate].
  destruct (squeeze1 out) as [predictions |]; cbn [bind] in H; [| discriminate].
  destruct (match predictions with T1 p => _ | _ => _ end) as [loss |];
    cbn [bind] in H; [| discriminate].
  destruct (exp_avg (t_optimizer s)) as [| m ms] eqn:Em; [discriminate Hm |].
  destruct (exp_avg_sq (t_optimizer s)) as [| v vs] eqn:Ev; [discriminate Hv |].
  pose proof (embedding_backward_padding_row (embed (t_model s)) pad (text b)
                (d_embedded (autograd (t_model s) (bernoulli (t_draws s))
                                      (bernoulli (S (t_draws s))) b))
                Hidx Hnum) as Hg.
  rewrite Hdim in Hg.
  pose proof (adam_step_first_row (t_optimizer s) _ _ m v
                (concat (map direction_parameters (directions (rnn (t_model s))))
                 ++ [lin_weight (dense (t_model s)); [lin_bias (dense (t_model s))]])
                (d_rest (autograd (t_model s) (bernoulli (t_draws s))
                                  (bernoulli (S (t_draws s))) b))
                ms vs pad _ _ _ _ Em Ev Hw Hg Hm Hv) as Hrow.
  cbv zeta in Hrow.
  destruct (adam_zero_row (S (step (t_optimizer s))) embeddingSize) as (Za & Zs & Zu).
  rewrite Za, Zs, Zu in Hrow. destruct Hrow as (Ha' & Hs' & Hp').
  unfold parameters in H.
  destruct (adam_step _ _ _) as [optimizer ps]. cbn [fst snd] in *.
  apply Ok_inj in H. subst s'.
  constructor; cbn [t_model t_optimizer]; rewrite ?with_parameters_embed;
    cbn [padding_idx embedding_dim num_embeddings emb_weight]; assumption.
Qed.

Lemma frozen_padding_loss (m : MyRNN) (o : AdamState) (d : nat) (l l' : R) :
  frozen_padding (mkTrain m o d l) -> frozen_padding (mkTrain m o d l').
Proof. intros []. constructor; assumption. Qed.

Lemma train_epoch_frozen (trainIterator : list Batch)
    (s s' : TrainState) (epoch : nat) (l : line) :
  frozen_padding s -> train_epoch trainIterator s epoch = Ok (s', l) ->
  frozen_padding s'.
Proof.
  intros Hs H. unfold train_epoch in H.
  destruct (for_each train_batch trainIterator _) as [s1 |] eqn:E; cbn [bind] in H;
    [| discriminate].
  destruct (length trainIterator =? 0)%nat; [discriminate |].
  injection H as <- _.
  eapply (for_each_invariant frozen_padding); [| | exact E].
  - intros. eapply train_batch_frozen; eassumption.
  - destruct s. eapply frozen_padding_loss, Hs.
Qed.

(** A fresh optimizer on a model whose padding row is zero. *)
Lemma Adam_frozen (m : MyRNN) :
  padding_idx (embed m) = Some pad -> embedding_dim (embed m) = embeddingSize ->
  (pad < num_embeddings (embed m))%nat -> padding_row_zero (emb_weight (embed m)) ->
  frozen_padding (mkTrain m (Adam (parameters m)) 0 0).
Proof.
  intros Hidx Hdim Hnum Hw. constructor; cbn [t_model t_optimizer]; try assumption.
  all: unfold Adam, zeros_like, parameters, padding_row_zero;
    cbn [exp_avg exp_avg_sq map hd]; rewrite nth_error_map, Hw; cbn [option_map];
    unfold zeros; now rewrite map_repeat.
Qed.

Lemma train_model_frozen (trainIterator : list Batch) (m m' : MyRNN)
    (log : list line) :
  padding_idx (embed m) = Some pad -> embedding_dim (embed m) = embeddingSize ->
  (pad < num_embeddings (embed m))%nat -> padding_row_zero (emb_weight (embed m)) ->
  train_model trainIterator m = Ok (m', log) ->
  padding_row_zero (emb_weight (embed m')).
Proof.
  intros Hidx Hdim Hnum Hw H. unfold train_model in H.
  destruct (for_each _ (seq 0 numEpochs) _) as [r |] eqn:E; cbn [bind] in H;
    [| discriminate].
  injection H as <- _.
  apply fp_weight.
  eapply (for_each_invariant (fun sl => frozen_padding (fst sl))); [| | exact E].
  - intros sl epoch sl' Hsl Hstep. cbv beta in Hstep.
    destruct (train_epoch trainIterator (fst sl) epoch) as [[s1 l1] |] eqn:E1;
      cbn [bind] in Hstep; [| discriminate].
    apply Ok_inj in Hstep. subst sl'. cbn [fst].
    eapply train_epoch_frozen; eassumption.
  - cbn [fst]. now apply Adam_frozen.
Qed.

(** C2, as the code has it.  After construction and loading, whatever the
    pretrained matrix holds, rows [unk] and [pad] of the embedding table
    are the zero vector.  Training keeps the padding row zero: the state a
    model's training starts from has the padding row frozen, every
    optimizer step keeps it frozen, and so the padding row is zero when
    the model's training ends.  (The embedding layer was built with
    [padding_idx = pad], so that row gets a zero gradient, and Adam moves
    a zero row with zero moments nowhere.)  Nothing is stated about row
    [unk] during training. *)
Theorem reserved_rows_zero_padding_row_frozen (g : init_values)
    (tag : string) (reviewVocabVectors : mat) (m0 m1 : MyRNN) :
  MyRNN_init g tag = Ok m0 ->
  load_pretrained reviewVocabVectors m0 = Ok m1 ->
  nth_error (emb_weight (embed m1)) unk = Some (zeros embeddingSize)
  /\ nth_error (emb_weight (embed m1)) pad = Some (zeros embeddingSize)
  /\ frozen_padding
       (mkTrain (set_training true m1) (Adam (parameters (set_training true m1))) 0 0)
  /\ (forall s batch s',
        frozen_padding s -> train_batch s batch = Ok s' ->
        frozen_padding s'
        /\ nth_error (emb_weight (embed (t_model s'))) pad = Some (zeros embeddingSize))
  /\ (forall trainIterator m2 log,
        train_model trainIterator (set_training true m1) = Ok (m2, log) ->
        nth_error (emb_weight (embed m2)) pad = Some (zeros embeddingSize)).
Proof.
  intros Hinit Hload.
  destruct (MyRNN_init_embed g tag m0 Hinit) as (Hnum & Hdim & Hidx).
  destruct (load_pretrained_reserved_rows _ _ _ Hload)
    as (Hunk & Hpad & Hnum' & Hdim' & Hidx').
  rewrite Hnum in Hnum'. rewrite Hdim in Hdim'. rewrite Hidx in Hidx'.
  assert (Hlt : (pad < num_embeddings (embed (set_training true m1)))%nat).
  { cbn [set_training embed]. rewrite Hnum'. apply Nat.ltb_lt. reflexivity. }
  split; [exact Hunk |]. split; [exact Hpad |]. split; [| split].
  - now apply Adam_frozen.
  - intros s batch s' Hs Hstep.
    pose proof (train_batch_frozen s s' batch Hs Hstep) as Hs'.
    split; [exact Hs' | exact (fp_weight s' Hs')].
  - intros trainIterator m2 log Htrain.
    now apply (train_model_frozen trainIterator (set_training true m1) m2 log).
Qed.

(** A training step on a built model and a well-formed batch goes through,
    and leaves the parameters Adam computes from the gradients. *)
Lemma train_batch_ok (v : variant) (s : TrainState) (b : Batch) :
  well_built v (t_model s) -> well_formed_batch b = true ->
  let g := autograd (t_model s) (bernoulli (t_draws s)) (bernoulli (S (t_draws s))) b in
  let grads :=
    embedding_backward (embed (t_model s)) (text b) (d_embedded g) :: d_rest g in
  let r := adam_step (t_optimizer s) (parameters (t_model s)) grads in
  exists loss,
    train_batch s b
    = Ok (mkTrain (with_parameters (snd r) (t_model s)) (fst r)
                  (t_draws s + (if training (t_model s) then 2 else 0))
                  (t_epochLoss s + loss)).
Proof.
  intros Hwb Hwf g grads r. unfold well_formed_batch in Hwf.
  apply andb_prop in Hwf as [Hin Hlab]. apply Nat.eqb_eq in Hlab.
  destruct (forward_shape HK v (t_model s) (bernoulli (t_draws s))
              (bernoulli (S (t_draws s))) (text b) (textLen b) Hwb Hin)
    as (y & Hy & Hshape).
  destruct (squeeze1_column _ y Hshape) as [Hsq Hlen].
  unfold train_batch. rewrite Hy. cbn [bind]. rewrite Hsq. cbn [bind].
  unfold criterion. rewrite Hlen, Hlab, Nat.eqb_refl. cbn [bind].
  fold g. fold grads. fold r. destruct r as [optimizer ps]. cbn [fst snd].
  eexists. reflexivity.
Qed.

End Training.

Lemma reserved_rows_zero_padding_row_frozen_witness :
  exists m0 m1,
    MyRNN_init (fun _ _ _ => 0) "RNN" = Ok m0
    /\ load_pretrained (mk_mat vocabSize embeddingSize (fun _ _ => 1)) m0 = Ok m1
    /\ nth_error (emb_weight (embed m1)) unk = Some (zeros embeddingSize)
    /\ nth_error (emb_weight (embed m1)) pad = Some (zeros embeddingSize)
    /\ frozen_padding
         (mkTrain (set_training true m1) (Adam (parameters (set_training true m1))) 0 0)
    /\ (forall s batch s',
          frozen_padding s -> train_batch (K := demo_torch) s batch = Ok s' ->
          frozen_padding s'
          /\ nth_error (emb_weight (embed (t_model s'))) pad
             = Some (zeros embeddingSize))
    /\ (forall trainIterator m2 log,
          train_model (K := demo_torch) trainIterator (set_training true m1)
          = Ok (m2, log) ->
          nth_error (emb_weight (embed m2)) pad = Some (zeros embeddingSize)).
Proof.
  destruct (MyRNN_init_ok (fun _ _ _ => 0) "RNN") as (m0 & Hinit).
  destruct (load_pretrained_ok RNN (mk_mat vocabSize embeddingSize (fun _ _ => 1)) m0
              (MyRNN_init_well_built _ RNN m0 Hinit) (mk_mat_shape _ _ _))
    as (m1 & Hload & _).
  exists m0, m1. split; [exact Hinit |]. split; [exact Hload |].
  exact (reserved_rows_zero_padding_row_frozen (K := demo_torch) _ _ _ m0 m1 Hinit Hload).
Defined.

(** C2, the claim as written fails for row [unk].  A model is built and
    loaded, put in training mode and given a fresh optimizer; one training
    step on a batch whose first token is [unk = 0], the gradient reaching
    that position being the all-ones vector, leaves row [unk] of the
    embedding table different from the zero vector. *)
Lemma unk_row_moves_in_training :
  exists m0 m1 s,
    MyRNN_init (fun _ _ _ => 0) "RNN" = Ok m0
    /\ load_pretrained (mk_mat vocabSize embeddingSize (fun _ _ => 1)) m0 = Ok m1
    /\ train_batch (K := demo_torch)
         (mkTrain (set_training true m1) (Adam (parameters (set_training true m1))) 0 0)
         (mkBatch [[0; 7]; [3; 1]]%nat [2; 1]%nat [1; 0])
       = Ok s
    /\ nth_error (emb_weight (embed (t_model s))) unk <> Some (zeros embeddingSize).
Proof.
  destruct (MyRNN_init_ok (fun _ _ _ => 0) "RNN") as (m0 & Hinit).
  pose proof (MyRNN_init_well_built _ RNN m0 Hinit) as Hwb0.
  destruct (load_pretrained_ok RNN (mk_mat vocabSize embeddingSize (fun _ _ => 1)) m0
              Hwb0 (mk_mat_shape _ _ _)) as (m1 & Hload & Hwb1).
  destruct (MyRNN_init_embed _ _ m0 Hinit) as (Hnum & Hdim & Hidx).
  destruct (load_pretrained_reserved_rows _ _ _ Hload)
    as (Hunk & _ & Hnum' & Hdim' & Hidx').
  rewrite Hnum in Hnum'. rewrite Hdim in Hdim'. rewrite Hidx in Hidx'.
  set (s0 := mkTrain (set_training true m1)
                     (Adam (parameters (set_training true m1))) 0 0).
  set (b := mkBatch [[0; 7]; [3; 1]]%nat [2; 1]%nat [1; 0]).
  destruct (train_batch_ok (K := demo_torch) demo_kernel_shapes RNN s0 b
              (set_training_well_built RNN true m1 Hwb1) eq_refl) as (loss & Hstep).
  exists m0, m1. eexists. split; [exact Hinit |]. split; [exact Hload |].
  split; [exact Hstep |].
  cbn [t_model]. rewrite with_parameters_embed. cbn [emb_weight].
  (* the gradient of row [unk] *)
  assert (Hg : nth_error
                 (embedding_backward (embed (t_model s0)) (text b)
                    (d_embedded (@autograd demo_torch (t_model s0)
                                   (@bernoulli demo_torch (t_draws s0))
                                   (@bernoulli demo_torch (S (t_draws s0))) b))) unk
               = Some (repeat (0 + 1) embeddingSize)).
  { unfold embedding_backward.
    cbn [s0 b t_model text d_embedded autograd demo_torch demo_autograd
         set_training embed concat map app combine fold_left fst snd].
    unfold is_padding. rewrite Hidx'. cbn [pad Nat.eqb].
    rewrite !nth_error_add_at. cbn [unk Nat.eqb].
    rewrite nth_error_repeat by (rewrite Hnum'; apply Nat.ltb_lt; reflexivity).
    cbn [option_map]. rewrite Hdim'. unfold zeros. now rewrite map2_repeat. }
  assert (Hz : nth_error (map (map (fun _ : R => 0)) (emb_weight (embed m1))) unk
               = Some (zeros embeddingSize)).
  { rewrite nth_error_map, Hunk. cbn [option_map]. unfold zeros. now rewrite map_repeat. }
  set (rest := concat (map direction_parameters (directions (rnn m1)))
               ++ [lin_weight (dense m1); [lin_bias (dense m1)]]).
  pose proof (adam_step_first_row (t_optimizer s0) (emb_weight (embed m1)) _
                (map (map (fun _ : R => 0)) (emb_weight (embed m1)))
                (map (map (fun _ : R => 0)) (emb_weight (embed m1)))
                rest
                (d_rest (@autograd demo_torch (t_model s0)
                           (@bernoulli demo_torch (t_draws s0))
                           (@bernoulli demo_torch (S (t_draws s0))) b))
                (zeros_like rest) (zeros_like rest)
                unk _ _ _ _ eq_refl eq_refl Hunk Hg Hz Hz) as (_ & _ & Hrow).
  cbv zeta in Hrow. intros E. pose proof (eq_trans (eq_sym Hrow) E) as E'.
  cbn [s0 t_optimizer Adam step] in E'. unfold zeros in E'.
  rewrite !map2_repeat, map_repeat, !map2_repeat in E'.
  apply (f_equal (fun o => match o with Some r => r | None => [] end)) in E'.
  revert E'. apply repeat_differs.
  - apply adam_first_update_nonzero. lra.
  - unfold embeddingSize. lia.
Qed.

(** * Further properties of the notebook's code *)

(** ** [batchAccuracy] at the edges *)

(** With no prediction at all, [len(preds)] is zero: when the comparison
    with the targets goes through (no target, or one that broadcasts) the
    division raises; against two or more targets the comparison itself is
    rejected. *)
Theorem batchAccuracy_no_predictions (targets : vec) :
  batchAccuracy [] targets
  = Raise (if (length targets <=? 1)%nat then ZeroDivisionError else RuntimeError).
Proof. destruct targets as [| t [| t' ts]]; reflexivity. Qed.

Lemma count_true_all (l : list bool) :
  Forall (fun b => b = true) l -> count_true l = length l.
Proof.
  unfold count_true. induction 1 as [| b l -> _ IH]; simpl; [reflexivity | now rewrite IH].
Qed.

Lemma count_true_none (l : list bool) :
  Forall (fun b => b = false) l -> count_true l = 0%nat.
Proof.
  unfold count_true. induction 1 as [| b l -> _ IH]; simpl; [reflexivity | exact IH].
Qed.

Lemma eq_promoted_false (t : R) : eq_promoted false t = true <-> t = 0.
Proof.
  unfold eq_promoted. destruct (Req_dec_T 0 t) as [H | H]; split; intros E;
    congruence.
Qed.

Lemma eq_promoted_binary (b : bool) :
  eq_promoted b (if b then 1 else 0) = true
  /\ eq_promoted b (if b then 0 else 1) = false.
Proof.
  unfold eq_promoted. destruct b; split.
  - destruct (Req_dec_T 1 1); congruence.
  - destruct (Req_dec_T 1 0) as [H | H]; [lra | reflexivity].
  - destruct (Req_dec_T 0 0); congruence.
  - destruct (Req_dec_T 0 1) as [H | H]; [lra | reflexivity].
Qed.

Lemma eq_promoted_other (b : bool) (t : R) :
  t <> 0 -> t <> 1 -> eq_promoted b t = false.
Proof.
  intros H0 H1. unfold eq_promoted.
  destruct (Req_dec_T (if b then 1 else 0) t) as [E | E]; [| reflexivity].
  destruct b; congruence.
Qed.

(** The value of [batchAccuracy] on aligned arguments, from the list of
    agreements. *)
Lemma batchAccuracy_counts (preds targets : vec) :
  length preds = length targets -> preds <> [] ->
  batchAccuracy preds targets
  = Ok (INR (count_true (map2 eq_promoted (map ge0 preds) targets))
        / INR (length preds)).
Proof.
  intros Hlen Hne. unfold batchAccuracy, tensor_eq.
  rewrite length_map, Hlen, Nat.eqb_refl. cbn [bind]. rewrite <- Hlen.
  destruct preds as [| x preds]; [congruence | reflexivity].
Qed.

(** The two ends of the scale.  Labels that are exactly what the threshold
    predicts give accuracy 1, the opposite labels give 0, and a batch whose
    labels are neither [0.0] nor [1.0] gives 0 whatever the logits: the
    comparison promotes the boolean prediction to [1.0] or [0.0]. *)
Theorem batchAccuracy_extremes (preds : vec) :
  preds <> [] ->
  batchAccuracy preds (map (fun p => if ge0 p then 1 else 0) preds) = Ok 1
  /\ batchAccuracy preds (map (fun p => if ge0 p then 0 else 1) preds) = Ok 0
  /\ (forall targets,
        length targets = length preds ->
        Forall (fun t => t <> 0 /\ t <> 1) targets ->
        batchAccuracy preds targets = Ok 0).
Proof.
  intros Hne.
  assert (Hn : INR (length preds) <> 0).
  { apply not_0_INR. destruct preds; [congruence | discriminate]. }
  split; [| split].
  - rewrite batchAccuracy_counts by (now rewrite ?length_map).
    rewrite count_true_all.
    + rewrite map2_length by (now rewrite !length_map). rewrite length_map.
      f_equal. now field.
    + clear. induction preds as [| p preds IH]; simpl; constructor; [| exact IH].
      apply eq_promoted_binary.
  - rewrite batchAccuracy_counts by (now rewrite ?length_map).
    rewrite count_true_none.
    + f_equal. simpl. now field.
    + clear. induction preds as [| p preds IH]; simpl; constructor; [| exact IH].
      apply eq_promoted_binary.
  - intros targets Hlen Hall. rewrite batchAccuracy_counts by congruence.
    rewrite count_true_none.
    + f_equal. simpl. now field.
    + clear Hne Hn. revert preds Hlen.
      induction Hall as [| t targets [H0 H1] _ IH]; intros [| p preds] Hlen;
        simpl in *; try discriminate; constructor.
      * now apply eq_promoted_other.
      * apply IH. now injection Hlen.
Qed.

Lemma batchAccuracy_extremes_witness :
  batchAccuracy [2; -3] (map (fun p => if ge0 p then 1 else 0) [2; -3]) = Ok 1
  /\ batchAccuracy [2; -3] (map (fun p => if ge0 p then 0 else 1) [2; -3]) = Ok 0
  /\ (forall targets,
        length targets = length [2; -3] ->
        Forall (fun t => t <> 0 /\ t <> 1) targets ->
        batchAccuracy [2; -3] targets = Ok 0).
Proof. apply (batchAccuracy_extremes [2; -3]). discriminate. Defined.

(** ** What loading leaves in the table *)

Lemma mapM_map {A B : Type} (f : A -> pyresult B) (g : A -> B) (l : list A) :
  (forall x, In x l -> f x = Ok (g x)) -> mapM f l = Ok (map g l).
Proof.
  induction l as [| x l IH]; intros H; simpl; [reflexivity |].
  rewrite (H x (or_introl eq_refl)), IH; [reflexivity |].
  intros y Hy. apply H. now right.
Qed.

Lemma map_snd_combine_same {A B : Type} (a : list A) (b : list B) :
  length a = length b -> map snd (combine a b) = b.
Proof.
  revert b. induction a as [| x a IH]; intros [| y b] H; simpl in *;
    try reflexivity; try discriminate.
  f_equal. apply IH. now injection H.
Qed.

(** Copying a source of the destination's shape gives the source. *)
Lemma copy_same_shape (rows cols : nat) (dst src : mat) :
  mat_shape rows cols dst -> mat_shape rows cols src -> copy_ dst src = Ok src.
Proof.
  intros [Hd Wd] [Hs Ws]. unfold copy_. rewrite Hs, Hd, Nat.eqb_refl.
  rewrite (mapM_map _ snd).
  - rewrite map_snd_combine_same; congruence.
  - intros [d s] Hin. cbn [fst snd]. rewrite Forall_forall in Wd, Ws.
    unfold broadcast_row.
    rewrite (Ws s (in_combine_r _ _ _ _ Hin)), (Wd d (in_combine_l _ _ _ _ Hin)).
    now rewrite Nat.eqb_refl.
Qed.

Lemma setitem_zeros_same (rows : nat) (t : mat) (i : nat) :
  mat_shape rows embeddingSize t -> (i < rows)%nat ->
  setitem t i (zeros embeddingSize) = Ok (set_row i (zeros embeddingSize) t).
Proof.
  intros Ht Hi. destruct (setitem_zeros_ok rows t i Ht Hi) as (t' & Ht' & _).
  rewrite Ht'. f_equal. now apply setitem_zeros in Ht'.
Qed.

(** Loading a pretrained matrix of the table's shape succeeds, whatever
    the table held before: afterwards the table is the pretrained matrix
    with rows [unk] and [pad] replaced by zeros, so every other row is the
    pretrained row, and nothing else of the model has changed. *)
Theorem load_pretrained_result (reviewVocabVectors : mat) (m : MyRNN) :
  mat_shape vocabSize embeddingSize (emb_weight (embed m)) ->
  mat_shape vocabSize embeddingSize reviewVocabVectors ->
  exists m',
    load_pretrained reviewVocabVectors m = Ok m'
    /\ emb_weight (embed m')
       = set_row pad (zeros embeddingSize)
           (set_row unk (zeros embeddingSize) reviewVocabVectors)
    /\ (forall i, i <> unk -> i <> pad ->
          nth_error (emb_weight (embed m')) i = nth_error reviewVocabVectors i)
    /\ name m' = name m /\ LSTM m' = LSTM m /\ bidir m' = bidir m
    /\ rnn m' = rnn m /\ dense m' = dense m
    /\ dropout m' = dropout m /\ training m' = training m.
Proof.
  intros Ht Hr. unfold load_pretrained.
  rewrite (copy_same_shape _ _ _ _ Ht Hr). cbn [bind].
  rewrite (setitem_zeros_same vocabSize) by
    (try exact Hr; apply Nat.ltb_lt; reflexivity).
  cbn [bind].
  rewrite (setitem_zeros_same vocabSize) by
    (try (apply set_row_shape; [exact Hr | apply zeros_length]);
     apply Nat.ltb_lt; reflexivity).
  cbn [bind]. eexists. split; [reflexivity |].
  cbn [set_emb_weight embed emb_weight name LSTM bidir rnn dense dropout training].
  split; [reflexivity |]. split; [| repeat split].
  intros i Hu Hp. rewrite !set_row_other by congruence. reflexivity.
Qed.

Lemma load_pretrained_result_witness :
  exists m0,
    MyRNN_init (fun _ _ _ => 5) "GRU" = Ok m0
    /\ exists m',
         load_pretrained (mk_mat vocabSize embeddingSize (fun i j => INR i)) m0 = Ok m'
         /\ emb_weight (embed m')
            = set_row pad (zeros embeddingSize)
                (set_row unk (zeros embeddingSize)
                   (mk_mat vocabSize embeddingSize (fun i j => INR i)))
         /\ (forall i, i <> unk -> i <> pad ->
               nth_error (emb_weight (embed m')) i
               = nth_error (mk_mat vocabSize embeddingSize (fun i j => INR i)) i)
         /\ name m' = name m0 /\ LSTM m' = LSTM m0 /\ bidir m' = bidir m0
         /\ rnn m' = rnn m0 /\ dense m' = dense m0
         /\ dropout m' = dropout m0 /\ training m' = training m0.
Proof.
  destruct (MyRNN_init_ok (fun _ _ _ => 5) "GRU") as (m0 & Hinit).
  exists m0. split; [exact Hinit |].
  apply (load_pretrained_result (mk_mat vocabSize embeddingSize (fun i j => INR i)) m0).
  - exact (wb_table GRU m0 (MyRNN_init_well_built _ GRU m0 Hinit)).
  - apply mk_mat_shape.
Defined.

(** A pretrained matrix with the wrong number of rows (and more than one,
    so that it does not broadcast) is rejected by [copy_]: the loading
    raises and no table is touched. *)
Theorem load_pretrained_wrong_rows (reviewVocabVectors : mat) (m : MyRNN) :
  length (emb_weight (embed m)) = vocabSize ->
  length reviewVocabVectors <> vocabSize ->
  length reviewVocabVectors <> 1%nat ->
  load_pretrained reviewVocabVectors m = Raise RuntimeError.
Proof.
  intros Ht Hr H1. unfold load_pretrained, copy_. rewrite Ht.
  apply Nat.eqb_neq in Hr, H1. now rewrite Hr, H1.
Qed.

Lemma load_pretrained_wrong_rows_witness :
  exists m0,
    MyRNN_init (fun _ _ _ => 5) "GRU" = Ok m0
    /\ load_pretrained [[1; 2]; [3; 4]] m0 = Raise RuntimeError.
Proof.
  destruct (MyRNN_init_ok (fun _ _ _ => 5) "GRU") as (m0 & Hinit).
  exists m0. split; [exact Hinit |].
  apply (load_pretrained_wrong_rows [[1; 2]; [3; 4]] m0).
  - exact (proj1 (wb_table GRU m0 (MyRNN_init_well_built _ GRU m0 Hinit))).
  - apply Nat.eqb_neq. reflexivity.
  - discriminate.
Defined.

(** ** Rejected inputs and empty iterators *)

Lemma mapM_raises {A B : Type} (f : A -> pyresult B) (e : exn) (l : list A) :
  (forall x, In x l -> f x = Raise e \/ exists y, f x = Ok y) ->
  (exists x, In x l /\ f x = Raise e) ->
  mapM f l = Raise e.
Proof.
  induction l as [| x l IH]; intros Hall (x0 & Hin & Hx0); [destruct Hin |].
  simpl. destruct (f x) as [y | e'] eqn:E; cbn [bind].
  - rewrite IH; [reflexivity | |].
    + intros z Hz. apply Hall. now right.
    + destruct Hin as [<- | Hin]; [congruence |]. now exists x0.
  - destruct (Hall x (or_introl eq_refl)) as [H | (y & H)]; congruence.
Qed.

Lemma embedding_lookup_cases (e : Embedding) (tok : nat) :
  embedding_lookup e tok = Raise IndexError \/ exists row, embedding_lookup e tok = Ok row.
Proof.
  unfold embedding_lookup. destruct (nth_error (emb_weight e) tok) as [row |];
    [right; now exists row | now left].
Qed.

Lemma embedding_forward_out_of_range (e : Embedding) (text : list (list nat))
    (row : list nat) (tok : nat) :
  In row text -> In tok row -> (length (emb_weight e) <= tok)%nat ->
  embedding_forward e text = Raise IndexError.
Proof.
  intros Hrow Htok Hbig. unfold embedding_forward.
  assert (Hone : forall r, In r text ->
            mapM (embedding_lookup e) r = Raise IndexError
            \/ exists y, mapM (embedding_lookup e) r = Ok y).
  { intros r _. induction r as [| t r IH]; simpl; [right; now eexists |].
    destruct (embedding_lookup_cases e t) as [-> | (y & ->)]; [now left |].
    cbn [bind]. destruct IH as [-> | (ys & ->)]; [now left | right; now eexists]. }
  apply mapM_raises; [exact Hone |].
  exists row. split; [exact Hrow |].
  apply mapM_raises; [intros; apply embedding_lookup_cases |].
  exists tok. split; [exact Htok |].
  unfold embedding_lookup. now rewrite (proj2 (nth_error_None _ _) Hbig).
Qed.

Section EdgeCases.

Context {K : Torch}.

(** A token index outside the vocabulary makes [forward] raise
    [IndexError] at the embedding lookup, its first statement, whatever
    the rest of the batch, the lengths, the mode and the variant. *)
Theorem forward_token_out_of_vocabulary (m : MyRNN) (z1 z2 : mask)
    (text : list (list nat)) (lengths : list nat) (row : list nat) (tok : nat) :
  length (emb_weight (embed m)) = vocabSize ->
  In row text -> In tok row -> (vocabSize <= tok)%nat ->
  forward m z1 z2 text lengths = Raise IndexError.
Proof.
  intros Hlen Hrow Htok Hbig. unfold forward.
  rewrite (embedding_forward_out_of_range (embed m) text row tok Hrow Htok);
    [reflexivity | now rewrite Hlen].
Qed.

Lemma evaluate_model_no_batch (m : MyRNN) :
  evaluate_model [] m = Raise ZeroDivisionError.
Proof. reflexivity. Qed.

Lemma train_model_no_batch (m : MyRNN) :
  train_model [] m = Raise ZeroDivisionError.
Proof. reflexivity. Qed.

(** With an iterator that yields no batch, the report of the first model
    divides by [len(iterator) = 0]: the evaluation cell and the training
    cell raise [ZeroDivisionError] as soon as the list holds a model, and
    print nothing and complete when every entry is [None]. *)
Theorem empty_iterator (models : list (option MyRNN)) :
  (Exists (fun model => model <> None) models ->
   snd (evaluation_loop [] models) = Raise ZeroDivisionError
   /\ training_loop [] models = Raise ZeroDivisionError)
  /\ (Forall (fun model => model = None) models ->
      snd (evaluation_loop [] models) = Ok []
      /\ training_loop [] models = Ok (models, [])).
Proof.
  unfold evaluation_loop, training_loop. cbn [snd]. split.
  - intros Hex.
    assert (He : forall log,
              for_each (fun log model =>
                          match model with
                          | None => Ok log
                          | Some m => l <- evaluate_model [] m ;; Ok (log ++ [l])
                          end)
                       (map (option_map (set_training false)) models) log
              = Raise ZeroDivisionError).
    { induction Hex as [[m |] models H | [m |] models _ IH]; intros log;
        cbn [map option_map for_each bind]; try congruence;
        try (rewrite evaluate_model_no_batch; reflexivity); apply IH. }
    assert (Ht : forall acc,
              for_each (fun acc model =>
                          match model with
                          | None => Ok (fst acc ++ [None], snd acc)
                          | Some m =>
                              r <- train_model [] m ;;
                              Ok (fst acc ++ [Some (fst r)], snd acc ++ snd r)
                          end)
                       (map (option_map (set_training true)) models) acc
              = Raise ZeroDivisionError).
    { clear He.
      induction Hex as [[m |] models H | [m |] models _ IH]; intros acc;
        cbn [map option_map for_each bind]; try congruence;
        try (rewrite train_model_no_batch; reflexivity); apply IH. }
    split; [apply He | apply Ht].
  - intros Hall. split.
    + induction Hall as [| model models -> _ IH]; [reflexivity | exact IH].
    + assert (Ht : forall done log,
                for_each (fun acc model =>
                            match model with
                            | None => Ok (fst acc ++ [None], snd acc)
                            | Some m =>
                                r <- train_model [] m ;;
                                Ok (fst acc ++ [Some (fst r)], snd acc ++ snd r)
                            end)
                         (map (option_map (set_training true)) models) (done, log)
                = Ok (done ++ models, log)).
      { induction Hall as [| model models -> _ IH]; intros done log;
          cbn [map option_map for_each bind fst snd].
        - now rewrite app_nil_r.
        - rewrite IH, <- app_assoc. reflexivity. }
      apply (Ht [] []).
Qed.

End EdgeCases.

Lemma forward_token_out_of_vocabulary_witness :
  exists m,
    MyRNN_init (fun _ _ _ => 0) "RNN" = Ok m
    /\ forward (K := demo_torch) m (fun _ => false) (fun _ => false)
         [[5; vocabSize]; [3; 1]]%nat [2; 1]%nat
       = Raise IndexError.
Proof.
  destruct (MyRNN_init_ok (fun _ _ _ => 0) "RNN") as (m & Hinit).
  exists m. split; [exact Hinit |].
  apply (forward_token_out_of_vocabulary (K := demo_torch) m _ _ _ _
           [5; vocabSize]%nat vocabSize).
  - exact (proj1 (wb_table RNN m (MyRNN_init_well_built _ RNN m Hinit))).
  - now left.
  - right. now left.
  - apply le_n.
Defined.

(** ** What the evaluation cell depends on, and what it prints *)

Lemma mapi_from_ext {A B : Type} (f g : nat -> A -> B) (l : list A) (k : nat) :
  (forall i x, f i x = g i x) -> mapi_from k f l = mapi_from k g l.
Proof.
  intros H. revert k. induction l as [| x l IH]; intros k; simpl; [reflexivity |].
  now rewrite H, IH.
Qed.

Lemma for_each_ext_in {A S : Type} (body1 body2 : S -> A -> pyresult S)
    (xs : list A) (s : S) :
  (forall s x, In x xs -> body1 s x = body2 s x) ->
  for_each body1 xs s = for_each body2 xs s.
Proof.
  revert s. induction xs as [| x xs IH]; intros s H; [reflexivity |].
  cbn [for_each]. rewrite (H s x (or_introl eq_refl)).
  destruct (body2 s x) as [s' |]; cbn [bind]; [| reflexivity].
  apply IH. intros s0 y Hy. apply H. now right.
Qed.

(** In evaluation mode [forward] reads nothing of torch but the recurrent
    kernel: no dropout mask is consulted. *)
Lemma forward_in_eval_mode (K1 K2 : Torch) (m : MyRNN) (z1 z2 z1' z2' : mask)
    (text : list (list nat)) (lengths : list nat) :
  (forall c hid params rev p,
     @run_direction K1 c hid params rev p = @run_direction K2 c hid params rev p) ->
  training m = false ->
  @forward K1 m z1 z2 text lengths = @forward K2 m z1' z2' text lengths.
Proof.
  intros Hrun Htr. unfold forward, nn_Dropout. rewrite Htr.
  destruct (embedding_forward (embed m) text) as [e |]; cbn [bind]; [| reflexivity].
  destruct (pack_padded_sequence e lengths) as [p |]; cbn [bind]; [| reflexivity].
  unfold nn_Recurrent_forward, mapi.
  rewrite (mapi_from_ext _
             (fun d params =>
                @run_direction K2 (kind (rnn m)) (hidden_size (rnn m)) params
                               (d =? 1)%nat p)) by (intros; apply Hrun).
  reflexivity.
Qed.

(** The evaluation cell puts every model in evaluation mode before it
    runs any, so what it leaves and prints does not depend on the dropout
    masks nor on autograd, and not on the mode the models were in: two
    versions of torch with the same recurrent kernel give the same
    result. *)
Theorem evaluation_independent_of_dropout (K1 K2 : Torch)
    (testIterator : list Batch) (models : list (option MyRNN)) :
  (forall c hid params rev p,
     @run_direction K1 c hid params rev p = @run_direction K2 c hid params rev p) ->
  @evaluation_loop K1 testIterator models = @evaluation_loop K2 testIterator models.
Proof.
  intros Hrun. unfold evaluation_loop. f_equal.
  apply for_each_ext_in. intros log [m |] Hin; [| reflexivity].
  apply in_map_iff in Hin as ([m0 |] & Hm & _); [| discriminate].
  injection Hm as <-.
  assert (He : @evaluate_model K1 testIterator (set_training false m0)
               = @evaluate_model K2 testIterator (set_training false m0)).
  { unfold evaluate_model. f_equal. apply for_each_ext_in. intros acc b _.
    unfold eval_batch.
    now rewrite (forward_in_eval_mode K1 K2 (set_training false m0)
                   (@bernoulli K1 0%nat) (@bernoulli K1 1%nat)
                   (@bernoulli K2 0%nat) (@bernoulli K2 1%nat)). }
  now rewrite He.
Qed.

Lemma evaluation_independent_of_dropout_witness :
  exists m,
    MyRNN_init (fun _ _ _ => 0) "BiLSTM" = Ok m
    /\ @evaluation_loop demo_torch
         [mkBatch [[5; 7]; [3; 1]]%nat [2; 1]%nat [1; 0]] [Some m]
       = @evaluation_loop (Build_Torch demo_direction (fun _ _ => true) demo_autograd)
           [mkBatch [[5; 7]; [3; 1]]%nat [2; 1]%nat [1; 0]] [Some m].
Proof.
  destruct (MyRNN_init_ok (fun _ _ _ => 0) "BiLSTM") as (m & Hinit).
  exists m. split; [exact Hinit |].
  apply (evaluation_independent_of_dropout demo_torch
           (Build_Torch demo_direction (fun _ _ => true) demo_autograd)).
  reflexivity.
Defined.

Section EvaluationReport.

Context {K : Torch}.
Hypothesis HK : kernel_shapes K.

Lemma evaluate_model_line (testIterator : list Batch) (m : MyRNN) (l : line) :
  evaluate_model testIterator m = Ok l ->
  exists pct, l = EvalLine (name m) pct /\ 0 <= pct <= 100.
Proof.
  intros H.
  assert (Hl : exists pct, l = EvalLine (name m) pct).
  { unfold evaluate_model in H.
    destruct (for_each _ testIterator 0) as [acc |]; cbn [bind] in H; [| discriminate].
    destruct (length testIterator =? 0)%nat; [discriminate |].
    apply Ok_inj in H. subst l. now eexists. }
  destruct Hl as (pct & ->). exists pct. split; [reflexivity |].
  eapply evaluate_model_range, H.
Qed.

(** On a built model and a non-empty stream of well-formed batches the
    evaluation of the model goes through. *)
Lemma evaluate_model_ok (v : variant) (m : MyRNN) (testIterator : list Batch) :
  well_built v m -> forallb well_formed_batch testIterator = true ->
  testIterator <> [] ->
  exists l, evaluate_model testIterator m = Ok l.
Proof.
  intros Hwb Hall Hne.
  destruct (accumulate_ok HK v m testIterator 0 Hwb Hall) as (acc & Hacc).
  unfold evaluate_model. rewrite Hacc. cbn [bind].
  destruct testIterator; [congruence |]. eexists. reflexivity.
Qed.

Lemma model_names_set_training (b : bool) (models : list (option MyRNN)) :
  model_names (map (option_map (set_training b)) models) = model_names models.
Proof.
  unfold model_names. induction models as [| [m |] models IH]; simpl;
    [reflexivity | now rewrite IH | exact IH].
Qed.

(** When the evaluation cell completes it has printed one line per model
    of the list, in the order of the list and skipping the [None] entries,
    each carrying the model's name and a percentage between 0 and 100. *)
Theorem evaluation_report (testIterator : list Batch) (models : list (option MyRNN))
    (log : list line) :
  snd (evaluation_loop testIterator models) = Ok log ->
  Forall2 (fun tag l => exists pct, l = EvalLine tag pct /\ 0 <= pct <= 100)
          (model_names models) log.
Proof.
  unfold evaluation_loop. cbn [snd].
  rewrite <- (model_names_set_training false models).
  generalize (map (option_map (set_training false)) models) as ms. intros ms H.
  assert (Hgen : forall acc log,
            for_each (fun log model =>
                        match model with
                        | None => Ok log
                        | Some m => l <- evaluate_model testIterator m ;; Ok (log ++ [l])
                        end) ms acc = Ok log ->
            exists rest,
              log = acc ++ rest
              /\ Forall2 (fun tag l => exists pct, l = EvalLine tag pct /\ 0 <= pct <= 100)
                         (model_names ms) rest).
  { clear H log. induction ms as [| [m |] ms IH]; intros acc log H.
    - apply Ok_inj in H. subst log. exists []. split; [now rewrite app_nil_r | constructor].
    - cbn [for_each] in H.
      destruct (evaluate_model testIterator m) as [l |] eqn:El; cbn [bind] in H;
        [| discriminate].
      apply IH in H as (rest & -> & Hrest). exists (l :: rest).
      split; [now rewrite <- app_assoc |].
      unfold model_names. cbn [flat_map app]. constructor; [| exact Hrest].
      exact (evaluate_model_line testIterator m l El).
    - cbn [for_each bind] in H. apply IH in H as (rest & -> & Hrest).
      exists rest. split; [reflexivity | exact Hrest]. }
  destruct (Hgen [] log H) as (rest & -> & Hrest). exact Hrest.
Qed.

End EvaluationReport.

Lemma evaluation_report_witness :
  exists m log,
    MyRNN_init (fun _ _ _ => 0) "LSTM" = Ok m
    /\ snd (evaluation_loop (K := demo_torch)
              [mkBatch [[5; 7]; [3; 1]]%nat [2; 1]%nat [1; 0]] [None; Some m])
       = Ok log
    /\ Forall2 (fun tag l => exists pct, l = EvalLine tag pct /\ 0 <= pct <= 100)
               (model_names [None; Some m]) log.
Proof.
  destruct (MyRNN_init_ok (fun _ _ _ => 0) "LSTM") as (m & Hinit).
  destruct (evaluate_model_ok (K := demo_torch) demo_kernel_shapes LSTMv
              (set_training false m)
              [mkBatch [[5; 7]; [3; 1]]%nat [2; 1]%nat [1; 0]]
              (set_training_well_built LSTMv false m
                 (MyRNN_init_well_built _ LSTMv m Hinit))
              eq_refl ltac:(discriminate)) as (l & Hl).
  assert (Hrun : snd (evaluation_loop (K := demo_torch)
                        [mkBatch [[5; 7]; [3; 1]]%nat [2; 1]%nat [1; 0]]
                        [None; Some m]) = Ok [l]).
  { unfold evaluation_loop. cbn [snd map option_map for_each bind].
    rewrite Hl. reflexivity. }
  exists m, [l]. split; [exact Hinit |]. split; [exact Hrun |].
  exact (evaluation_report (K := demo_torch) _ _ _ Hrun).
Defined.

(** ** A model built from a tag that is none of the four *)

Open Scope nat_scope.

Lemma MyRNN_init_unknown_tag (g : init_values) (tag : string) (m : MyRNN) :
  ~ In tag variant_tags -> MyRNN_init g tag = Ok m -> built_from_unknown_tag m.
Proof.
  intros Htag. destruct (not_variant_tag tag Htag) as (Hr & Hg & Hl & Hb).
  unfold MyRNN_init. rewrite nn_Embedding_notebook, Hr, Hg, Hl, Hb. cbn [bind orb].
  intros H. apply Ok_inj in H. subst m.
  constructor; try reflexivity. cbn [embed emb_weight].
  apply set_row_shape; [apply mk_mat_shape | apply zeros_length].
Qed.

Lemma set_training_unknown_tag (b : bool) (m : MyRNN) :
  built_from_unknown_tag m -> built_from_unknown_tag (set_training b m).
Proof. intros []. constructor; assumption. Qed.

(** The packing of a well-formed input needs no more of the model than
    the shape of its table. *)
Lemma packed_input_ok_table (m : MyRNN) (z1 : mask)
    (text : list (list nat)) (lengths : list nat) :
  mat_shape vocabSize embeddingSize (emb_weight (embed m)) ->
  well_formed_input text lengths = true ->
  exists p, packed_input m z1 text lengths = Ok p
            /\ hd 0 (batch_sizes p) = length lengths.
Proof.
  intros Htable Hwf. unfold well_formed_input in Hwf.
  apply andb_prop in Hwf as [Hwf Hsorted]. apply andb_prop in Hwf as [Hwf Hall].
  apply andb_prop in Hwf as [Hwf Htok]. apply andb_prop in Hwf as [Hwf Hrect].
  apply andb_prop in Hwf as [HT HB].
  apply Nat.ltb_lt in HT, HB.
  destruct (embedding_forward_ok (embed m) vocabSize embeddingSize (length lengths) text
              Htable Hrect Htok) as (e & He & Hshape).
  unfold packed_input. rewrite He. cbn [bind].
  assert (Hshape' : tensor3_shape (length text) (length lengths) embeddingSize
                      (if training m then dropout_tensor3 (dropout m) z1 e else e)).
  { destruct (training m); [now apply dropout_tensor3_shape | exact Hshape]. }
  unfold pack_padded_sequence.
  rewrite (packable_ok (length text) (length lengths) embeddingSize); try assumption;
    try reflexivity; [| unfold embeddingSize; lia].
  eexists. split; [reflexivity |]. cbn [batch_sizes].
  destruct lengths as [| l ls]; [simpl in HB; lia |].
  assert (Hpos : forallb (fun l => 0 <? l) (l :: ls) = true).
  { rewrite forallb_forall in *. intros x Hx. specialize (Hall x Hx).
    now apply andb_prop in Hall as [? _]. }
  cbn [hd]. pose proof Hpos as Hl. simpl in Hl. apply andb_prop in Hl as [Hl _].
  apply Nat.ltb_lt in Hl. destruct l as [| l]; [lia |].
  cbn [seq map hd]. now apply batch_size_at_0.
Qed.

Section UnknownTag.

Context {K : Torch}.
Hypothesis HK : kernel_shapes K.

Lemma forward_unknown_tag (m : MyRNN) (z1 z2 : mask)
    (text : list (list nat)) (lengths : list nat) :
  built_from_unknown_tag m -> well_formed_input text lengths = true ->
  exists y, forward m z1 z2 text lengths = Ok (T3 [y])
            /\ mat_shape (length lengths) 1 y.
Proof.
  intros [HL Hb Hk Hh Hd Htable Hin Hw Hbias] Hwf.
  destruct (packed_input_ok_table m z1 text lengths Htable Hwf) as (p & Hp & HB).
  unfold forward. unfold packed_input in Hp.
  destruct (embedding_forward (embed m) text) as [e |]; cbn [bind] in *;
    [| discriminate].
  rewrite Hp. cbn [bind].
  unfold nn_Recurrent_forward, select_hidden. rewrite HL, Hb, Hk.
  destruct (directions (rnn m)) as [| d0 [| d1 ds]]; try discriminate Hd.
  cbn [mapi mapi_from map pad_packed_sequence bind getitem0].
  pose proof (HK CellLSTM (hidden_size (rnn m)) d0 (0 =? 1) p) as Hh0.
  set (h := h_last (run_direction CellLSTM (hidden_size (rnn m)) d0 (0 =? 1) p)) in *.
  rewrite HB, Hh in Hh0.
  replace hiddenSize with (in_features (dense m)) in Hh0 by (rewrite Hin; apply Nat.mul_1_r).
  assert (Hdrop : exists h', nn_Dropout (training m) (dropout m) z2 (T3 [h]) = T3 [h']
                             /\ mat_shape (length lengths) (in_features (dense m)) h').
  { unfold nn_Dropout. destruct (training m); eexists; (split; [reflexivity |]).
    - now apply dropout_mat_shape.
    - exact Hh0. }
  destruct Hdrop as (h' & -> & Hh').
  destruct (linear_rows_ok (dense m) (length lengths) h' Hw Hbias Hh') as (y & Hy & Hys).
  exists y. cbn [nn_Linear_forward mapM bind]. rewrite Hy. cbn [bind].
  split; [reflexivity | exact Hys].
Qed.

(** A tag that is none of the four builds an LSTM layer while the model's
    [LSTM] flag is false, so [forward] takes the pair [(h_n, c_n)] for the
    hidden state and [hidden[0]] is the whole of [h_n]: on a well-formed
    batch the result is a rank-3 tensor of shape (1, batch size, 1), not
    the (batch size, 1) of the four variants. *)
Theorem unknown_tag_forward_rank3 (g : init_values) (tag : string) (m : MyRNN)
    (train : bool) (z1 z2 : mask) (text : list (list nat)) (lengths : list nat) :
  ~ In tag variant_tags -> MyRNN_init g tag = Ok m ->
  well_formed_input text lengths = true ->
  exists y, forward (set_training train m) z1 z2 text lengths = Ok (T3 [y])
            /\ mat_shape (length lengths) 1 y.
Proof.
  intros Htag Hinit Hwf. apply forward_unknown_tag; [| exact Hwf].
  apply set_training_unknown_tag. eapply MyRNN_init_unknown_tag; eassumption.
Qed.

Lemma squeeze1_rank3 (y : mat) :
  exists t, squeeze1 (T3 [y]) = Ok t /\ forall p, t <> T1 p.
Proof.
  unfold squeeze1.
  destruct (forallb (fun m => length m =? 1) [y]); eexists;
    (split; [reflexivity | discriminate]).
Qed.

Lemma eval_batch_unknown_tag (m : MyRNN) (b : Batch) :
  built_from_unknown_tag m -> well_formed_batch b = true ->
  eval_batch m b = Raise ValueError.
Proof.
  intros Hm Hwf. unfold well_formed_batch in Hwf. apply andb_prop in Hwf as [Hin _].
  destruct (forward_unknown_tag m (bernoulli 0) (bernoulli 1) (text b) (textLen b)
              Hm Hin) as (y & Hy & _).
  unfold eval_batch. rewrite Hy. cbn [bind].
  destruct (squeeze1_rank3 y) as (t & -> & Ht). cbn [bind].
  destruct t as [x | p | q | r]; try reflexivity. now destruct (Ht p).
Qed.

Lemma train_batch_unknown_tag (s : TrainState) (b : Batch) :
  built_from_unknown_tag (t_model s) -> well_formed_batch b = true ->
  train_batch s b = Raise ValueError.
Proof.
  intros Hm Hwf. unfold well_formed_batch in Hwf. apply andb_prop in Hwf as [Hin _].
  destruct (forward_unknown_tag (t_model s) (bernoulli (t_draws s))
              (bernoulli (S (t_draws s))) (text b) (textLen b) Hm Hin) as (y & Hy & _).
  unfold train_batch. rewrite Hy. cbn [bind].
  destruct (squeeze1_rank3 y) as (t & -> & Ht). cbn [bind].
  destruct t as [x | p | q | r]; try reflexivity. now destruct (Ht p).
Qed.

(** Such a model can be neither trained nor evaluated: on the first batch
    of a stream of well-formed batches the rank-3 output does not have the
    size of the labels and the loss raises [ValueError], in the training
    of the model and in its evaluation alike. *)
Theorem unknown_tag_model_cannot_be_scored (g : init_values) (tag : string)
    (m : MyRNN) (b : Batch) (batches : list Batch) :
  ~ In tag variant_tags -> MyRNN_init g tag = Ok m ->
  well_formed_batch b = true ->
  train_model (b :: batches) (set_training true m) = Raise ValueError
  /\ evaluate_model (b :: batches) (set_training false m) = Raise ValueError.
Proof.
  intros Htag Hinit Hwf.
  pose proof (MyRNN_init_unknown_tag g tag m Htag Hinit) as Hm. split.
  - unfold train_model, numEpochs. cbn [seq for_each fst]. unfold train_epoch.
    cbn [for_each t_model t_optimizer t_draws].
    rewrite train_batch_unknown_tag; [reflexivity | | exact Hwf].
    cbn [t_model]. now apply set_training_unknown_tag.
  - unfold evaluate_model. cbn [for_each].
    rewrite eval_batch_unknown_tag; [reflexivity | | exact Hwf].
    now apply set_training_unknown_tag.
Qed.

End UnknownTag.

Open Scope R_scope.

Lemma unknown_tag_forward_rank3_witness :
  exists m y,
    MyRNN_init (fun _ _ _ => 0) "lstm" = Ok m
    /\ forward (K := demo_torch) (set_training false m) (fun _ => false) (fun _ => false)
         [[5; 7]; [3; 1]]%nat [2; 1]%nat
       = Ok (T3 [y])
    /\ mat_shape 2 1 y.
Proof.
  destruct (MyRNN_init_ok (fun _ _ _ => 0) "lstm") as (m & Hinit).
  destruct (unknown_tag_forward_rank3 (K := demo_torch) demo_kernel_shapes
              (fun _ _ _ => 0) "lstm" m false (fun _ => false) (fun _ => false)
              [[5; 7]; [3; 1]]%nat [2; 1]%nat) as (y & Hy & Hshape).
  - simpl. intros [H | [H | [H | [H | []]]]]; discriminate H.
  - exact Hinit.
  - reflexivity.
  - exists m, y. split; [exact Hinit |]. split; [exact Hy | exact Hshape].
Defined.

Lemma unknown_tag_model_cannot_be_scored_witness :
  exists m,
    MyRNN_init (fun _ _ _ => 0) "lstm" = Ok m
    /\ train_model (K := demo_torch)
         [mkBatch [[5; 7]; [3; 1]]%nat [2; 1]%nat [1; 0]] (set_training true m)
       = Raise ValueError
    /\ evaluate_model (K := demo_torch)
         [mkBatch [[5; 7]; [3; 1]]%nat [2; 1]%nat [1; 0]] (set_training false m)
       = Raise ValueError.
Proof.
  destruct (MyRNN_init_ok (fun _ _ _ => 0) "lstm") as (m & Hinit).
  exists m. split; [exact Hinit |].
  apply (unknown_tag_model_cannot_be_scored (K := demo_torch) demo_kernel_shapes
           (fun _ _ _ => 0) "lstm" m).
  - simpl. intros [H | [H | [H | [H | []]]]]; discriminate H.
  - exact Hinit.
  - reflexivity.
Defined.

(** ** Training keeps the architecture *)

Open Scope nat_scope.

Lemma Forall2_map2 {A B C D : Type} (P : A -> B -> Prop) (Q : A -> C -> Prop)
    (S : A -> D -> Prop) (f : B -> C -> D) (a : list A) (b : list B) (c : list C) :
  (forall x y z, P x y -> Q x z -> S x (f y z)) ->
  Forall2 P a b -> Forall2 Q a c -> Forall2 S a (map2 f b c).
Proof.
  intros Hf Hab. revert c.
  induction Hab as [| x y a b Hxy _ IH]; intros c Hac; inversion Hac; subst;
    cbn [map2]; constructor; auto.
Qed.

Lemma Forall2_map_right {A B C : Type} (P : A -> B -> Prop) (S : A -> C -> Prop)
    (f : B -> C) (a : list A) (b : list B) :
  (forall x y, P x y -> S x (f y)) -> Forall2 P a b -> Forall2 S a (map f b).
Proof. intros Hf. induction 1; cbn [map]; constructor; auto. Qed.

Lemma Forall2_common_left {A B C : Type} (P : A -> B -> Prop) (Q : A -> C -> Prop)
    (S : B -> C -> Prop) (a : list A) (b : list B) (c : list C) :
  (forall x y z, P x y -> Q x z -> S y z) ->
  Forall2 P a b -> Forall2 Q a c -> Forall2 S b c.
Proof.
  intros Hf Hab. revert c.
  induction Hab as [| x y a b Hxy _ IH]; intros c Hac; inversion Hac; subst;
    constructor; eauto.
Qed.

Lemma same_shapes_refl (a : list mat) : same_shapes a a.
Proof.
  unfold same_shapes. induction a as [| m a IH]; constructor; [| exact IH].
  induction m as [| r m IHm]; constructor; auto.
Qed.

Lemma same_shapes_common (a b c : list mat) :
  same_shapes a b -> same_shapes a c -> same_shapes b c.
Proof.
  unfold same_shapes. apply Forall2_common_left. intros x y z.
  apply Forall2_common_left. intros r s t Hrs Hrt. congruence.
Qed.

Lemma pointwise_same_shapes (f : R -> R -> R) (a b c : list mat) :
  same_shapes a b -> same_shapes a c -> same_shapes a (pointwise f b c).
Proof.
  unfold same_shapes, pointwise. apply Forall2_map2. intros x y z.
  apply Forall2_map2. intros r s t Hrs Hrt.
  rewrite map2_length; congruence.
Qed.

Lemma elementwise_same_shapes (f : R -> R) (a b : list mat) :
  same_shapes a b -> same_shapes a (map (map (map f)) b).
Proof.
  unfold same_shapes. apply Forall2_map_right. intros x y.
  apply Forall2_map_right. intros r s Hrs. now rewrite length_map.
Qed.

Lemma mat_shape_same (rows cols : nat) (a b : mat) :
  mat_shape rows cols a -> mat_shape rows cols b ->
  Forall2 (fun r s : vec => length r = length s) a b.
Proof.
  intros [Ha Hra] [Hb Hrb]. subst rows. revert b Hb Hrb.
  induction Hra as [| r a Hr _ IH]; intros [| s b] Hb Hrb; try discriminate Hb;
    constructor.
  - inversion Hrb; subst. congruence.
  - apply IH; [now injection Hb | now inversion Hrb].
Qed.

Lemma same_shape_mat (rows cols : nat) (a b : mat) :
  mat_shape rows cols a -> Forall2 (fun r s : vec => length r = length s) a b ->
  mat_shape rows cols b.
Proof.
  intros [Ha Hra] H. subst rows. split.
  - symmetry. eapply Forall2_length, H.
  - clear - Hra H. induction H as [| r s a b Hrs _ IH]; constructor.
    + inversion Hra; subst. congruence.
    + apply IH. now inversion Hra.
Qed.

(** The gradient of the table has the shape of the table. *)
Lemma add_at_shape (rows cols : nat) (acc : mat) (i : nat) (g : vec) :
  mat_shape rows cols acc -> length g = cols -> mat_shape rows cols (add_at acc i g).
Proof.
  intros [Hn Hrows] Hg. unfold add_at, mapi. split.
  - now rewrite mapi_from_length.
  - eapply mapi_from_Forall; [| exact Hrows]. intros k row Hrow. cbv beta.
    destruct (k =? i); [| exact Hrow]. rewrite map2_length; congruence.
Qed.

Lemma embedding_backward_shape (e : Embedding) (text : list (list nat))
    (d_out : tensor3) :
  Forall (Forall (fun g : vec => length g = embedding_dim e)) d_out ->
  mat_shape (num_embeddings e) (embedding_dim e) (embedding_backward e text d_out).
Proof.
  intros Hd. unfold embedding_backward.
  assert (Hpairs : Forall (fun ig : nat * vec => length (snd ig) = embedding_dim e)
                          (combine (concat text) (concat d_out))).
  { apply Forall_forall. intros [i g] Hin. apply in_combine_r in Hin.
    apply in_concat in Hin as (row & Hrow & Hg).
    rewrite Forall_forall in Hd. specialize (Hd row Hrow).
    rewrite Forall_forall in Hd. exact (Hd g Hg). }
  assert (Hacc : mat_shape (num_embeddings e) (embedding_dim e)
                           (repeat (zeros (embedding_dim e)) (num_embeddings e))).
  { split; [apply repeat_length |]. apply Forall_forall. intros r Hr.
    apply repeat_spec in Hr. subst r. apply zeros_length. }
  revert Hacc. generalize (repeat (zeros (embedding_dim e)) (num_embeddings e)) as acc.
  induction Hpairs as [| [i g] l Hg _ IH]; intros acc Hacc; cbn [fold_left];
    [exact Hacc |].
  apply IH. cbn [fst snd] in *. destruct (is_padding e i); [exact Hacc |].
  now apply add_at_shape.
Qed.

(** Reading back the parameters that were written: [with_parameters]
    stores a list of the shapes of the model's parameters without loss. *)
Lemma store_directions_same_shapes (ds : list DirParams) (rest0 rest : list mat) :
  same_shapes (concat (map direction_parameters ds) ++ rest0) rest ->
  exists ds' remaining,
    store_directions (length ds) rest = (ds', remaining)
    /\ length ds' = length ds
    /\ concat (map direction_parameters ds') ++ remaining = rest
    /\ same_shapes rest0 remaining.
Proof.
  unfold same_shapes. revert rest. induction ds as [| d ds IH]; intros rest H.
  - exists [], rest. split; [reflexivity |]. split; [reflexivity |].
    split; [reflexivity | exact H].
  - cbn [map concat direction_parameters app] in H.
    inversion H as [| ? a ? r1 _ H1]; subst.
    inversion H1 as [| ? b ? r2 _ H2]; subst.
    inversion H2 as [| ? c ? r3 Hc H3]; subst.
    inversion H3 as [| ? e ? r4 He H4]; subst.
    destruct (IH r4 H4) as (ds' & remaining & Hs & Hlen & Hcat & Hrem).
    inversion Hc as [| ? c0 ? c1 _ Hc1]; subst. inversion Hc1; subst.
    inversion He as [| ? e0 ? e1 _ He1]; subst. inversion He1; subst.
    exists (mkDirParams a b c0 e0 :: ds'), remaining.
    cbn [length store_directions]. rewrite Hs. cbn [hd].
    split; [reflexivity |]. split; [now rewrite Hlen |]. split; [| exact Hrem].
    cbn [map concat direction_parameters app weight_ih weight_hh bias_ih bias_hh].
    reflexivity.
Qed.

Lemma with_parameters_same_shapes (v : variant) (m : MyRNN) (ps : list mat) :
  well_built v m -> same_shapes (parameters m) ps ->
  parameters (with_parameters ps m) = ps
  /\ well_built v (with_parameters ps m)
  /\ name (with_parameters ps m) = name m.
Proof.
  intros [HL Hb Hk Hh Hd Htable Hin Hw Hbias] H. unfold parameters in H.
  inversion H as [| ? p0 ? rest Hp0 Hrest]; subst.
  destruct (store_directions_same_shapes _ _ _ Hrest)
    as (ds' & remaining & Hs & Hlen & Hcat & Hrem).
  inversion Hrem as [| ? w' ? r1 Hw' Hr1]; subst.
  inversion Hr1 as [| ? b' ? r2 Hb' Hr2]; subst. inversion Hr2; subst.
  inversion Hb' as [| ? b0 ? b1 Hb0 Hb1]; subst. inversion Hb1; subst.
  unfold with_parameters. cbn [tl hd]. rewrite Hs. cbn [nth hd].
  split; [| split; [| reflexivity]].
  - unfold parameters. cbn [embed emb_weight rnn directions dense lin_weight lin_bias].
    reflexivity.
  - constructor; cbn [LSTM bidir rnn kind hidden_size directions embed emb_weight
                      dense in_features lin_weight lin_bias]; try assumption.
    + now rewrite Hlen.
    + eapply same_shape_mat; eassumption.
    + rewrite <- Hw. symmetry. eapply Forall2_length, Hw'.
    + now rewrite <- Hb0.
Qed.

Lemma for_each_ok {A S : Type} (P : S -> Prop) (Q : A -> Prop)
    (body : S -> A -> pyresult S) (xs : list A) (s : S) :
  (forall s x, P s -> Q x -> exists s', body s x = Ok s' /\ P s') ->
  P s -> Forall Q xs -> exists s', for_each body xs s = Ok s' /\ P s'.
Proof.
  intros Hbody Hs Hxs. revert s Hs.
  induction Hxs as [| x xs Hx _ IH]; intros s Hs; cbn [for_each].
  - now exists s.
  - destruct (Hbody s x Hs Hx) as (s1 & -> & Hs1). cbn [bind]. now apply IH.
Qed.

Lemma Adam_trainable (v : variant) (m : MyRNN) (draws : nat) (loss : R) :
  well_built v m -> num_embeddings (embed m) = vocabSize ->
  embedding_dim (embed m) = embeddingSize ->
  trainable v (name m) (mkTrain m (Adam (parameters m)) draws loss).
Proof.
  intros Hwb Hnum Hdim.
  constructor; cbn [t_model t_optimizer Adam exp_avg exp_avg_sq]; try assumption;
    try reflexivity; unfold zeros_like;
    apply elementwise_same_shapes, same_shapes_refl.
Qed.

Section TrainingCompletes.

Context {K : Torch}.
Hypothesis HK : kernel_shapes K.
Hypothesis HA : autograd_shapes K.

(** One step on a well-formed batch goes through and keeps [trainable]:
    every gradient has the shape of its parameter, so Adam's elementwise
    rules give moment estimates and new values of the same shapes. *)
Lemma train_batch_trainable (v : variant) (nm : string) (s : TrainState) (b : Batch) :
  trainable v nm s -> well_formed_batch b = true ->
  exists s', train_batch s b = Ok s' /\ trainable v nm s'.
Proof.
  intros [Hwb Hname Hnum Hdim Havg Hsq] Hwf.
  destruct (train_batch_ok HK v s b Hwb Hwf) as (loss & Hstep).
  cbv zeta in Hstep. rewrite Hstep. eexists. split; [reflexivity |].
  set (g := autograd (t_model s) (bernoulli (t_draws s)) (bernoulli (S (t_draws s))) b)
    in *.
  set (grads := embedding_backward (embed (t_model s)) (text b) (d_embedded g)
                :: d_rest g) in *.
  assert (Hgrads : same_shapes (parameters (t_model s)) grads).
  { destruct (HA (t_model s) (bernoulli (t_draws s)) (bernoulli (S (t_draws s))) b)
      as [He Hrest].
    fold g in He, Hrest. unfold grads, parameters. constructor; [| exact Hrest].
    eapply mat_shape_same; [exact (wb_table v _ Hwb) |].
    rewrite <- Hnum, <- Hdim. now apply embedding_backward_shape. }
  unfold adam_step. cbn [fst snd].
  set (m1 := pointwise adam_avg (exp_avg (t_optimizer s)) grads).
  set (v1 := pointwise adam_avg_sq (exp_avg_sq (t_optimizer s)) grads).
  assert (Hm1 : same_shapes (parameters (t_model s)) m1)
    by now apply pointwise_same_shapes.
  assert (Hv1 : same_shapes (parameters (t_model s)) v1)
    by now apply pointwise_same_shapes.
  set (ps := pointwise (adam_update (S (step (t_optimizer s)))) (parameters (t_model s))
               (pointwise Rdiv m1
                  (map (map (map (adam_denom (S (step (t_optimizer s)))))) v1))).
  assert (Hps : same_shapes (parameters (t_model s)) ps).
  { apply pointwise_same_shapes; [apply same_shapes_refl |].
    apply pointwise_same_shapes; [exact Hm1 |].
    now apply elementwise_same_shapes. }
  destruct (with_parameters_same_shapes v (t_model s) ps Hwb Hps) as (Hround & Hwb' & Hn').
  constructor; cbn [t_model t_optimizer exp_avg exp_avg_sq].
  - exact Hwb'.
  - now rewrite Hn'.
  - now rewrite with_parameters_embed.
  - now rewrite with_parameters_embed.
  - rewrite Hround. eapply same_shapes_common; eassumption.
  - rewrite Hround. eapply same_shapes_common; eassumption.
Qed.

Lemma train_epoch_trainable (v : variant) (nm : string) (trainIterator : list Batch)
    (s : TrainState) (epoch : nat) :
  trainable v nm s -> trainIterator <> [] ->
  forallb well_formed_batch trainIterator = true ->
  exists s' loss,
    train_epoch trainIterator s epoch = Ok (s', TrainLine nm (epoch + 1) loss)
    /\ trainable v nm s'.
Proof.
  intros Hs Hne Hall. unfold train_epoch.
  destruct (for_each_ok (trainable v nm) (fun b => well_formed_batch b = true)
              train_batch trainIterator
              (mkTrain (t_model s) (t_optimizer s) (t_draws s) 0%R))
    as (s' & -> & Hs').
  - intros s0 b. apply train_batch_trainable.
  - destruct Hs. constructor; assumption.
  - apply Forall_forall. now apply forallb_forall.
  - cbn [bind]. destruct trainIterator as [| b bs]; [congruence |].
    cbn [length Nat.eqb]. rewrite (tr_name v nm s' Hs'). now eexists _, _.
Qed.

Lemma train_model_trainable (v : variant) (trainIterator : list Batch) (m : MyRNN) :
  well_built v m -> num_embeddings (embed m) = vocabSize ->
  embedding_dim (embed m) = embeddingSize ->
  trainIterator <> [] -> forallb well_formed_batch trainIterator = true ->
  exists s losses,
    train_model trainIterator m = Ok (t_model s, training_lines (name m) losses)
    /\ length losses = numEpochs
    /\ trainable v (name m) s.
Proof.
  intros Hwb Hnum Hdim Hne Hall. unfold train_model, numEpochs.
  pose proof (Adam_trainable v m 0 0%R Hwb Hnum Hdim) as H0.
  cbn [seq for_each fst snd].
  destruct (train_epoch_trainable v (name m) trainIterator _ 0 H0 Hne Hall)
    as (s1 & l1 & -> & H1). cbn [bind fst snd].
  destruct (train_epoch_trainable v (name m) trainIterator _ 1 H1 Hne Hall)
    as (s2 & l2 & -> & H2). cbn [bind fst snd].
  destruct (train_epoch_trainable v (name m) trainIterator _ 2 H2 Hne Hall)
    as (s3 & l3 & -> & H3). cbn [bind fst snd].
  destruct (train_epoch_trainable v (name m) trainIterator _ 3 H3 Hne Hall)
    as (s4 & l4 & -> & H4). cbn [bind fst snd].
  destruct (train_epoch_trainable v (name m) trainIterator _ 4 H4 Hne Hall)
    as (s5 & l5 & -> & H5). cbn [bind fst snd].
  exists s5, [l1; l2; l3; l4; l5]. split; [reflexivity |]. split; [reflexivity | exact H5].
Qed.

End TrainingCompletes.

(** ** The notebook from the first cell to the last *)

Lemma MyRNN_init_name (g : init_values) (tag : string) (m : MyRNN) :
  MyRNN_init g tag = Ok m -> name m = tag.
Proof.
  unfold MyRNN_init. rewrite nn_Embedding_notebook. cbn [bind].
  intros H. apply Ok_inj in H. now subst m.
Qed.

Lemma load_pretrained_ready (v : variant) (reviewVocabVectors : mat) (m : MyRNN) :
  well_built v m -> mat_shape vocabSize embeddingSize reviewVocabVectors ->
  exists m',
    load_pretrained reviewVocabVectors m = Ok m'
    /\ well_built v m'
    /\ name m' = name m
    /\ num_embeddings (embed m') = num_embeddings (embed m)
    /\ embedding_dim (embed m') = embedding_dim (embed m).
Proof.
  intros Hwb Hshape. unfold load_pretrained.
  destruct (copy_ok _ _ _ _ (wb_table v m Hwb) Hshape) as (w1 & -> & H1). cbn [bind].
  destruct (setitem_zeros_ok vocabSize w1 unk H1) as (w2 & -> & H2).
  { apply Nat.ltb_lt. reflexivity. }
  cbn [bind].
  destruct (setitem_zeros_ok vocabSize w2 pad H2) as (w3 & -> & H3).
  { apply Nat.ltb_lt. reflexivity. }
  cbn [bind]. eexists. split; [reflexivity |].
  split; [now apply set_emb_weight_well_built |]. repeat split.
Qed.

(** A model of the notebook as the training cell receives it: built for
    its tag, loaded with the pretrained table. *)
Lemma notebook_model_ready (g : init_values) (v : variant)
    (reviewVocabVectors : mat) :
  mat_shape vocabSize embeddingSize reviewVocabVectors ->
  exists m0 m,
    MyRNN_init g (tag_of v) = Ok m0
    /\ load_pretrained reviewVocabVectors m0 = Ok m
    /\ well_built v m /\ name m = tag_of v
    /\ num_embeddings (embed m) = vocabSize
    /\ embedding_dim (embed m) = embeddingSize.
Proof.
  intros Hshape. destruct (MyRNN_init_ok g (tag_of v)) as (m0 & Hinit).
  destruct (MyRNN_init_embed g _ m0 Hinit) as (Hnum & Hdim & _).
  destruct (load_pretrained_ready v reviewVocabVectors m0
              (MyRNN_init_well_built g v m0 Hinit) Hshape)
    as (m & Hload & Hwb & Hname & Hnum' & Hdim').
  exists m0, m. split; [exact Hinit |]. split; [exact Hload |].
  split; [exact Hwb |]. split; [| split; congruence].
  rewrite Hname. eapply MyRNN_init_name, Hinit.
Qed.

Section Notebook.

Context {K : Torch}.
Hypothesis HK : kernel_shapes K.
Hypothesis HA : autograd_shapes K.

(** With gradients of the shapes of the parameters, the training of a
    built model on a non-empty stream of well-formed batches runs through
    its five epochs: it prints one line per epoch, numbered from 1 and
    carrying the model's name, then a blank line, and the trained model
    still has the architecture of its variant and its name. *)
Theorem train_model_completes (v : variant) (trainIterator : list Batch) (m : MyRNN) :
  well_built v m -> num_embeddings (embed m) = vocabSize ->
  embedding_dim (embed m) = embeddingSize ->
  trainIterator <> [] -> forallb well_formed_batch trainIterator = true ->
  exists m' losses,
    train_model trainIterator m = Ok (m', training_lines (name m) losses)
    /\ length losses = numEpochs
    /\ well_built v m' /\ name m' = name m.
Proof.
  intros Hwb Hnum Hdim Hne Hall.
  destruct (train_model_trainable HK HA v trainIterator m Hwb Hnum Hdim Hne Hall)
    as (s & losses & Hrun & Hlen & Hs).
  exists (t_model s), losses. split; [exact Hrun |]. split; [exact Hlen |].
  split; [exact (tr_built _ _ _ Hs) | exact (tr_name _ _ _ Hs)].
Qed.

Lemma train_then_evaluate (v : variant) (trainIterator testIterator : list Batch)
    (m : MyRNN) :
  well_built v m -> num_embeddings (embed m) = vocabSize ->
  embedding_dim (embed m) = embeddingSize ->
  trainIterator <> [] -> forallb well_formed_batch trainIterator = true ->
  testIterator <> [] -> forallb well_formed_batch testIterator = true ->
  exists m' losses pct,
    train_model trainIterator (set_training true m)
    = Ok (m', training_lines (name m) losses)
    /\ evaluate_model testIterator (set_training false m') = Ok (EvalLine (name m) pct)
    /\ length losses = numEpochs /\ (0 <= pct <= 100)%R.
Proof.
  intros Hwb Hnum Hdim Hne Hall Hne' Hall'.
  destruct (train_model_trainable HK HA v trainIterator (set_training true m)
              (set_training_well_built v true m Hwb) Hnum Hdim Hne Hall)
    as (s & losses & Hrun & Hlen & Hs).
  destruct (evaluate_model_ok HK v (set_training false (t_model s)) testIterator
              (set_training_well_built v false _ (tr_built _ _ _ Hs)) Hall' Hne')
    as (l & Hl).
  destruct (evaluate_model_line testIterator _ l Hl) as (pct & -> & Hpct).
  cbn [set_training name] in Hl. rewrite (tr_name _ _ _ Hs) in Hl.
  cbn [set_training name] in Hl.
  exists (t_model s), losses, pct. repeat split; try assumption; apply Hpct.
Qed.

(** The notebook runs from the construction of the four models to the
    last line of the evaluation: with a pretrained table of the size of
    the vocabulary and non-empty streams of well-formed batches, it builds
    RNN, GRU, LSTM and BiLSTM, loads the table, trains each for five
    epochs and evaluates each, printing for each model in this order its
    five epoch lines and a blank line, then for each model its accuracy, a
    percentage between 0 and 100. *)
Theorem notebook_runs (g : nat -> init_values) (reviewVocabVectors : mat)
    (trainIterator testIterator : list Batch) :
  mat_shape vocabSize embeddingSize reviewVocabVectors ->
  trainIterator <> [] -> forallb well_formed_batch trainIterator = true ->
  testIterator <> [] -> forallb well_formed_batch testIterator = true ->
  exists (losses : list (list R)) (accuracies : list R),
    notebook g reviewVocabVectors trainIterator testIterator
    = Ok (concat (map2 training_lines variant_tags losses)
          ++ map2 EvalLine variant_tags accuracies)
    /\ length losses = 4 /\ Forall (fun l => length l = numEpochs) losses
    /\ length accuracies = 4 /\ Forall (fun a => (0 <= a <= 100)%R) accuracies.
Proof.
  intros Hshape Hne Hall Hne' Hall'.
  destruct (notebook_model_ready (g 0) RNN reviewVocabVectors Hshape)
    as (a0 & a & Ha0 & Ha & Hwa & Hna & Hnum_a & Hdim_a).
  destruct (notebook_model_ready (g 1) GRU reviewVocabVectors Hshape)
    as (b0 & b & Hb0 & Hb & Hwb & Hnb & Hnum_b & Hdim_b).
  destruct (notebook_model_ready (g 2) LSTMv reviewVocabVectors Hshape)
    as (c0 & c & Hc0 & Hc & Hwc & Hnc & Hnum_c & Hdim_c).
  destruct (notebook_model_ready (g 3) BiLSTM reviewVocabVectors Hshape)
    as (d0 & d & Hd0 & Hd & Hwd & Hnd & Hnum_d & Hdim_d).
  cbn [tag_of] in Ha0, Hb0, Hc0, Hd0.
  destruct (train_then_evaluate RNN trainIterator testIterator a
              Hwa Hnum_a Hdim_a Hne Hall Hne' Hall')
    as (a' & la & pa & Hta & Hea & Hla & Hpa).
  destruct (train_then_evaluate GRU trainIterator testIterator b
              Hwb Hnum_b Hdim_b Hne Hall Hne' Hall')
    as (b' & lb & pb & Htb & Heb & Hlb & Hpb).
  destruct (train_then_evaluate LSTMv trainIterator testIterator c
              Hwc Hnum_c Hdim_c Hne Hall Hne' Hall')
    as (c' & lc & pc & Htc & Hec & Hlc & Hpc).
  destruct (train_then_evaluate BiLSTM trainIterator testIterator d
              Hwd Hnum_d Hdim_d Hne Hall Hne' Hall')
    as (d' & ld & pd & Htd & Hed & Hld & Hpd).
  rewrite Hna in Hta, Hea. rewrite Hnb in Htb, Heb.
  rewrite Hnc in Htc, Hec. rewrite Hnd in Htd, Hed.
  exists [la; lb; lc; ld], [pa; pb; pc; pd].
  split; [| split; [reflexivity |]; split; [| split; [reflexivity |]];
            repeat (apply Forall_cons; [assumption |]); apply Forall_nil].
  unfold notebook, build_models. rewrite Ha0, Hb0, Hc0, Hd0. cbn [bind].
  unfold load_all, for_models. cbn [mapM]. rewrite Ha, Hb, Hc, Hd. cbn [bind].
  unfold training_loop. cbn [map option_map for_each].
  rewrite Hta. cbn [bind fst snd]. rewrite Htb. cbn [bind fst snd].
  rewrite Htc. cbn [bind fst snd]. rewrite Htd. cbn [bind fst snd app].
  unfold evaluation_loop. cbn [snd map option_map for_each].
  rewrite Hea. cbn [bind]. rewrite Heb. cbn [bind]. rewrite Hec. cbn [bind].
  rewrite Hed. cbn [bind app].
  unfold variant_tags. cbn [map tag_of map2 concat].
  now rewrite app_nil_r, <- !app_assoc.
Qed.

End Notebook.

Lemma demo_autograd_shapes : autograd_shapes demo_torch.
Proof.
  intros m z1 z2 b. cbn [autograd demo_torch demo_autograd d_embedded d_rest]. split.
  - apply Forall_forall. intros row Hrow. apply in_map_iff in Hrow as (r & <- & _).
    apply Forall_forall. intros x Hx. apply in_map_iff in Hx as (t & <- & _).
    apply repeat_length.
  - unfold zeros_like. apply elementwise_same_shapes, same_shapes_refl.
Qed.

Open Scope R_scope.

Lemma train_model_completes_witness :
  exists m m' losses,
    MyRNN_init (fun _ _ _ => 0) "GRU" = Ok m
    /\ train_model (K := demo_torch)
         [mkBatch [[5; 7]; [3; 1]]%nat [2; 1]%nat [1; 0]] m
       = Ok (m', training_lines (name m) losses)
    /\ length losses = numEpochs
    /\ well_built GRU m' /\ name m' = name m.
Proof.
  destruct (MyRNN_init_ok (fun _ _ _ => 0) "GRU") as (m & Hinit).
  destruct (MyRNN_init_embed _ _ m Hinit) as (Hnum & Hdim & _).
  destruct (train_model_completes (K := demo_torch) demo_kernel_shapes
              demo_autograd_shapes GRU
              [mkBatch [[5; 7]; [3; 1]]%nat [2; 1]%nat [1; 0]] m
              (MyRNN_init_well_built _ GRU m Hinit) Hnum Hdim
              ltac:(discriminate) eq_refl) as (m' & losses & H).
  exists m, m', losses. split; [exact Hinit | exact H].
Defined.

Lemma notebook_runs_witness :
  exists (losses : list (list R)) (accuracies : list R),
    notebook (K := demo_torch) (fun _ _ _ _ => 0)
      (mk_mat vocabSize embeddingSize (fun _ _ => 1))
      [mkBatch [[5; 7]; [3; 1]]%nat [2; 1]%nat [1; 0]]
      [mkBatch [[4]; [2]; [9]]%nat [3]%nat [1]]
    = Ok (concat (map2 training_lines variant_tags losses)
          ++ map2 EvalLine variant_tags accuracies)
    /\ length losses = 4%nat /\ Forall (fun l => length l = numEpochs) losses
    /\ length accuracies = 4%nat /\ Forall (fun a => 0 <= a <= 100) accuracies.
Proof.
  apply (notebook_runs (K := demo_torch) demo_kernel_shapes demo_autograd_shapes).
  - apply mk_mat_shape.
  - discriminate.
  - reflexivity.
  - discriminate.
  - reflexivity.
Defined.

(** ** Padded positions *)

Open Scope nat_scope.

Lemma sorted_decreasing_tail (a : nat) (rest : list nat) :
  sorted_decreasing (a :: rest) = true -> sorted_decreasing rest = true.
Proof.
  destruct rest as [| b rest]; [reflexivity |].
  change (sorted_decreasing (a :: b :: rest))
    with ((b <=? a) && sorted_decreasing (b :: rest)).
  intros H. now apply andb_prop in H as [_ H].
Qed.

Lemma sorted_decreasing_head (a : nat) (rest : list nat) :
  sorted_decreasing (a :: rest) = true -> Forall (fun l => l <= a) rest.
Proof.
  revert a. induction rest as [| b rest IH]; intros a H; constructor.
  - change (sorted_decreasing (a :: b :: rest))
      with ((b <=? a) && sorted_decreasing (b :: rest)) in H.
    apply andb_prop in H as [H _]. now apply Nat.leb_le.
  - change (sorted_decreasing (a :: b :: rest))
      with ((b <=? a) && sorted_decreasing (b :: rest)) in H.
    apply andb_prop in H as [Hba H]. apply Nat.leb_le in Hba.
    eapply Forall_impl; [| exact (IH b H)]. intros l Hl. cbv beta in *. lia.
Qed.

(** With the lengths in decreasing order the sequences still running at
    step [t] are the first of the batch: example [b] is among them only if
    [t] is below its length. *)
Lemma batch_size_at_valid (lengths : list nat) (t b : nat) :
  sorted_decreasing lengths = true -> b < batch_size_at lengths t ->
  t < nth b lengths 0.
Proof.
  unfold batch_size_at. revert b.
  induction lengths as [| a rest IH]; intros b Hs Hb; cbn [filter length] in Hb;
    [lia |].
  destruct (t <? a) eqn:E.
  - apply Nat.ltb_lt in E. destruct b as [| b]; [exact E |]. cbn [nth].
    apply IH; [eapply sorted_decreasing_tail, Hs |]. cbn [length] in Hb. lia.
  - apply Nat.ltb_ge in E. exfalso.
    assert (Hnone : filter (fun l => t <? l) rest = []).
    { pose proof (sorted_decreasing_head a rest Hs) as Hle. clear - Hle E.
      induction Hle as [| l rest Hl _ IH]; [reflexivity |]. cbn [filter].
      replace (t <? l) with false; [exact IH |].
      symmetry. apply Nat.ltb_ge. lia. }
    rewrite Hnone in Hb. cbn [length] in Hb. lia.
Qed.

Lemma firstn_agree {A : Type} (k : nat) (l l' : list A) :
  (forall b, b < k -> nth_error l b = nth_error l' b) -> firstn k l = firstn k l'.
Proof.
  revert l l'. induction k as [| k IH]; intros l l' H; [reflexivity |].
  pose proof (H 0 (Nat.lt_0_succ k)) as H0.
  destruct l as [| x l], l' as [| y l']; cbn [nth_error] in H0; try discriminate;
    [reflexivity |].
  apply (f_equal (fun o => match o with Some r => r | None => x end)) in H0.
  cbv beta iota in H0. subst y. cbn [firstn]. f_equal. apply IH.
  intros b Hb. apply (H (S b)). lia.
Qed.

Lemma mapM_length {A B : Type} (f : A -> pyresult B) (l : list A) (ys : list B) :
  mapM f l = Ok ys -> length ys = length l.
Proof. intros H. symmetry. eapply Forall2_length, mapM_inv, H. Qed.

Lemma mapM_nth {A B : Type} (f : A -> pyresult B) (l : list A) (ys : list B)
    (i : nat) (d : A) (d' : B) :
  mapM f l = Ok ys -> i < length l -> f (nth i l d) = Ok (nth i ys d').
Proof.
  intros H. apply mapM_inv in H. revert i.
  induction H as [| x y l ys Hxy _ IH]; intros [| i] Hi; cbn [length nth] in *;
    try lia; [exact Hxy |].
  apply IH. lia.
Qed.

Lemma nth_mapi {A B : Type} (f : nat -> A -> B) (l : list A) (i : nat) (d : A) (d' : B) :
  i < length l -> nth i (mapi f l) d' = f i (nth i l d).
Proof.
  intros Hi. apply nth_error_nth. rewrite nth_error_mapi.
  now rewrite (nth_error_nth' l d Hi).
Qed.

(** The embedded batches of two texts agree wherever the texts do. *)
Lemma embedded_cells_agree (e : Embedding) (text text' : list (list nat))
    (x x' : tensor3) (t b : nat) :
  embedding_forward e text = Ok x -> embedding_forward e text' = Ok x' ->
  t < length text -> t < length text' ->
  b < length (nth t text []) -> b < length (nth t text' []) ->
  nth b (nth t text []) 0 = nth b (nth t text' []) 0 ->
  nth_error (nth t x []) b = nth_error (nth t x' []) b.
Proof.
  unfold embedding_forward. intros Hx Hx' Ht Ht' Hb Hb' Htok.
  pose proof (mapM_nth _ _ _ t [] [] Hx Ht) as Hrow.
  pose proof (mapM_nth _ _ _ t [] [] Hx' Ht') as Hrow'.
  pose proof (mapM_nth _ _ _ b 0 [] Hrow Hb) as Hcell.
  pose proof (mapM_nth _ _ _ b 0 [] Hrow' Hb') as Hcell'.
  rewrite <- (mapM_length _ _ _ Hrow) in Hb.
  rewrite <- (mapM_length _ _ _ Hrow') in Hb'.
  rewrite (nth_error_nth' _ [] Hb), (nth_error_nth' _ [] Hb'). f_equal.
  rewrite Htok, Hcell' in Hcell. now apply Ok_inj in Hcell.
Qed.

(** What the recurrent layer receives does not contain the padded
    positions. *)
Lemma packed_input_padding (m : MyRNN) (z1 : mask) (text text' : list (list nat))
    (lengths : list nat) :
  mat_shape vocabSize embeddingSize (emb_weight (embed m)) ->
  well_formed_input text lengths = true -> well_formed_input text' lengths = true ->
  same_tokens lengths text text' ->
  packed_input m z1 text lengths = packed_input m z1 text' lengths.
Proof.
  intros Htable Hwf Hwf' Hsame. unfold well_formed_input in Hwf, Hwf'.
  apply andb_prop in Hwf as [Hwf Hsorted]. apply andb_prop in Hwf as [Hwf Hall].
  apply andb_prop in Hwf as [Hwf Htok]. apply andb_prop in Hwf as [Hwf Hrect].
  apply andb_prop in Hwf as [HT HB].
  apply andb_prop in Hwf' as [Hwf' _]. apply andb_prop in Hwf' as [Hwf' Hall'].
  apply andb_prop in Hwf' as [Hwf' Htok']. apply andb_prop in Hwf' as [Hwf' Hrect'].
  apply andb_prop in Hwf' as [HT' _].
  apply Nat.ltb_lt in HT, HT', HB.
  destruct (embedding_forward_ok (embed m) vocabSize embeddingSize (length lengths) text
              Htable Hrect Htok) as (x & Hx & Hshape).
  destruct (embedding_forward_ok (embed m) vocabSize embeddingSize (length lengths) text'
              Htable Hrect' Htok') as (x' & Hx' & Hshape').
  unfold packed_input. rewrite Hx, Hx'. cbn [bind].
  assert (Hd : tensor3_shape (length text) (length lengths) embeddingSize
                 (if training m then dropout_tensor3 (dropout m) z1 x else x)).
  { destruct (training m); [now apply dropout_tensor3_shape | exact Hshape]. }
  assert (Hd' : tensor3_shape (length text') (length lengths) embeddingSize
                  (if training m then dropout_tensor3 (dropout m) z1 x' else x')).
  { destruct (training m); [now apply dropout_tensor3_shape | exact Hshape']. }
  unfold pack_padded_sequence.
  rewrite (packable_ok (length text) (length lengths) embeddingSize); try assumption;
    try reflexivity; [| unfold embeddingSize; lia].
  rewrite (packable_ok (length text') (length lengths) embeddingSize); try assumption;
    try reflexivity; [| unfold embeddingSize; lia].
  f_equal. f_equal. apply map_ext_in. intros t _. apply firstn_agree. intros b Hb.
  pose proof (batch_size_at_valid lengths t b Hsorted Hb) as Hvalid.
  assert (Hbl : b < length lengths).
  { destruct (Nat.lt_ge_cases b (length lengths)) as [H | H]; [exact H |].
    rewrite (nth_overflow lengths 0 H) in Hvalid. lia. }
  assert (Ht : t < length text).
  { rewrite forallb_forall in Hall. specialize (Hall _ (nth_In lengths 0 Hbl)).
    apply andb_prop in Hall as [_ Hle]. apply Nat.leb_le in Hle. lia. }
  assert (Ht' : t < length text').
  { rewrite forallb_forall in Hall'. specialize (Hall' _ (nth_In lengths 0 Hbl)).
    apply andb_prop in Hall' as [_ Hle]. apply Nat.leb_le in Hle. lia. }
  assert (Hrow : length (nth t text []) = length lengths).
  { rewrite forallb_forall in Hrect. apply Nat.eqb_eq, Hrect, nth_In, Ht. }
  assert (Hrow' : length (nth t text' []) = length lengths).
  { rewrite forallb_forall in Hrect'. apply Nat.eqb_eq, Hrect', nth_In, Ht'. }
  assert (Hcell : nth_error (nth t x []) b = nth_error (nth t x' []) b).
  { apply (embedded_cells_agree (embed m) text text'); try assumption;
      try (rewrite ?Hrow, ?Hrow'; exact Hbl).
    now apply Hsame. }
  destruct (training m); [| exact Hcell].
  destruct Hshape as [HTx _], Hshape' as [HTx' _].
  unfold dropout_tensor3.
  rewrite (nth_mapi _ x t []), (nth_mapi _ x' t []) by lia.
  unfold dropout_mat. rewrite !nth_error_mapi. now rewrite Hcell.
Qed.

Section Padding.

Context {K : Torch}.

(** [forward] packs the embedded batch by the true lengths before the
    recurrent layer sees it, so the tokens in the padded positions have no
    part in the result: two well-formed texts with the same tokens in
    every example give the same output, in training mode (with the same
    masks) and in evaluation mode. *)
Theorem padded_positions_ignored (m : MyRNN) (z1 z2 : mask)
    (text text' : list (list nat)) (lengths : list nat) :
  mat_shape vocabSize embeddingSize (emb_weight (embed m)) ->
  well_formed_input text lengths = true -> well_formed_input text' lengths = true ->
  same_tokens lengths text text' ->
  forward m z1 z2 text lengths = forward m z1 z2 text' lengths.
Proof.
  intros Htable Hwf Hwf' Hsame.
  pose proof (packed_input_padding m z1 text text' lengths Htable Hwf Hwf' Hsame) as Hp.
  unfold packed_input in Hp. unfold forward.
  destruct (embedding_forward (embed m) text) as [x | err];
    destruct (embedding_forward (embed m) text') as [x' | err'];
    cbn [bind] in *.
  - now rewrite Hp.
  - now rewrite Hp.
  - now rewrite <- Hp.
  - f_equal. congruence.
Qed.

End Padding.

Lemma padded_positions_ignored_witness :
  exists m,
    MyRNN_init (fun _ _ _ => 0%R) "GRU" = Ok m
    /\ forward (K := demo_torch) m (fun _ => false) (fun _ => true)
         [[5; 7]; [3; 1]] [2; 1]
       = forward (K := demo_torch) m (fun _ => false) (fun _ => true)
           [[5; 7]; [3; 9]] [2; 1].
Proof.
  destruct (MyRNN_init_ok (fun _ _ _ => 0%R) "GRU") as (m & Hinit).
  exists m. split; [exact Hinit |].
  apply (padded_positions_ignored (K := demo_torch)).
  - exact (wb_table GRU m (MyRNN_init_well_built _ GRU m Hinit)).
  - reflexivity.
  - reflexivity.
  - intros [| [| t]] [| [| b]]; cbn [nth]; intros H; try reflexivity; lia.
Defined.

(** ** The loss that training reports *)

Open Scope R_scope.

Lemma sigmoid_range (x : R) : 0 < sigmoid x < 1.
Proof.
  unfold sigmoid. pose proof (exp_pos (- x)) as He.
  assert (Hinv : 0 < / (1 + exp (- x))) by (apply Rinv_0_lt_compat; lra).
  unfold Rdiv. rewrite Rmult_1_l. split; [exact Hinv |].
  apply (Rmult_lt_reg_r (1 + exp (- x))); [lra |].
  rewrite Rinv_l by lra. lra.
Qed.

Lemma ln_below_one (u : R) : 0 < u < 1 -> ln u < 0.
Proof. intros [H0 H1]. rewrite <- ln_1. now apply ln_increasing. Qed.

Lemma bce_with_logits_nonneg (x y : R) : 0 <= y <= 1 -> 0 <= bce_with_logits x y.
Proof.
  intros Hy. unfold bce_with_logits. pose proof (sigmoid_range x) as Hs.
  assert (H1 : ln (sigmoid x) < 0) by (apply ln_below_one; lra).
  assert (H2 : ln (1 - sigmoid x) < 0) by (apply ln_below_one; lra).
  nra.
Qed.

Lemma criterion_nonneg (input target : vec) (loss : R) :
  Forall (fun y => 0 <= y <= 1) target -> criterion input target = Ok loss ->
  0 <= loss.
Proof.
  intros Ht H. unfold criterion in H.
  destruct (length input =? length target)%nat; [| discriminate].
  apply Ok_inj in H. subst loss.
  assert (Hsum : 0 <= fold_right Rplus 0 (map2 bce_with_logits input target)).
  { clear - Ht. revert input.
    induction Ht as [| y target Hy _ IH]; intros [| x input]; cbn [map2 fold_right];
      try lra.
    pose proof (bce_with_logits_nonneg x y Hy). specialize (IH input). lra. }
  destruct input as [| x input].
  - cbn [map2 fold_right]. unfold Rdiv. rewrite Rmult_0_l. lra.
  - apply Rmult_le_pos; [exact Hsum |].
    apply Rlt_le, Rinv_0_lt_compat, lt_0_INR. cbn [length]. lia.
Qed.

Lemma for_each_invariant_in {A S : Type} (P : S -> Prop) (body : S -> A -> pyresult S)
    (xs : list A) (s s' : S) :
  (forall s x s', In x xs -> P s -> body s x = Ok s' -> P s') ->
  P s -> for_each body xs s = Ok s' -> P s'.
Proof.
  revert s. induction xs as [| x xs IH]; intros s Hbody Hs H.
  - apply Ok_inj in H. now subst s'.
  - cbn [for_each] in H. destruct (body s x) as [s1 |] eqn:E; cbn [bind] in H;
      [| discriminate].
    apply (IH s1); [| | exact H].
    + intros s2 y s3 Hy. apply Hbody. now right.
    + apply (Hbody s x s1); [now left | exact Hs | exact E].
Qed.

Section ReportedLoss.

Context {K : Torch}.

Lemma train_batch_loss (s s' : TrainState) (b : Batch) :
  labels_in_unit_interval b -> train_batch s b = Ok s' ->
  t_epochLoss s <= t_epochLoss s'.
Proof.
  intros Hb H. unfold train_batch in H.
  destruct (forward _ _ _ _ _) as [out |]; cbn [bind] in H; [| discriminate].
  destruct (squeeze1 out) as [predictions |]; cbn [bind] in H; [| discriminate].
  destruct (match predictions with T1 p => _ | _ => _ end) as [loss |] eqn:El;
    cbn [bind] in H; [| discriminate].
  destruct (adam_step _ _ _) as [optimizer ps].
  apply Ok_inj in H. subst s'. cbn [t_epochLoss].
  destruct predictions as [x | p | q | r]; try discriminate El.
  pose proof (criterion_nonneg p (label b) loss Hb El). lra.
Qed.

Lemma train_epoch_loss (trainIterator : list Batch) (s s' : TrainState)
    (epoch : nat) (l : line) :
  Forall labels_in_unit_interval trainIterator ->
  train_epoch trainIterator s epoch = Ok (s', l) -> loss_not_negative l.
Proof.
  intros Hall H. unfold train_epoch in H.
  destruct (for_each train_batch trainIterator _) as [s1 |] eqn:E; cbn [bind] in H;
    [| discriminate].
  destruct (length trainIterator =? 0)%nat eqn:Hlen; [discriminate |].
  apply Ok_inj in H.
  apply (f_equal snd) in H. cbn [snd] in H. subst l. cbn [loss_not_negative].
  assert (Hs1 : 0 <= t_epochLoss s1).
  { eapply (for_each_invariant_in (fun s => 0 <= t_epochLoss s));
      [| | exact E]; [| cbn [t_epochLoss]; lra].
    intros s2 b s3 Hin Hs2 Hstep. rewrite Forall_forall in Hall.
    pose proof (train_batch_loss s2 s3 b (Hall b Hin) Hstep). lra. }
  apply Rmult_le_pos; [exact Hs1 |].
  apply Nat.eqb_neq in Hlen.
  apply Rlt_le, Rinv_0_lt_compat, lt_0_INR. lia.
Qed.

(** With labels between 0 and 1 the binary cross-entropy of every batch
    is not negative, and neither is the mean that an epoch prints: no
    line of a completed training reports a negative loss. *)
Theorem reported_loss_not_negative (trainIterator : list Batch) (m m' : MyRNN)
    (log : list line) :
  Forall labels_in_unit_interval trainIterator ->
  train_model trainIterator m = Ok (m', log) ->
  Forall loss_not_negative log.
Proof.
  intros Hall H. unfold train_model in H.
  destruct (for_each _ (seq 0 numEpochs) _) as [r |] eqn:E; cbn [bind] in H;
    [| discriminate].
  apply Ok_inj in H. apply (f_equal snd) in H. cbn [snd] in H. subst log.
  apply Forall_app. split; [| now repeat constructor].
  refine (for_each_invariant (fun sl : TrainState * list line =>
                                Forall loss_not_negative (snd sl))
            _ (seq 0 numEpochs) _ r _ _ E); [| constructor].
  intros sl epoch sl' Hsl Hstep. cbv beta in Hstep.
  destruct (train_epoch trainIterator (fst sl) epoch) as [[s1 l] |] eqn:Ee;
    cbn [bind] in Hstep; [| discriminate].
  apply Ok_inj in Hstep. subst sl'. cbn [snd fst].
  apply Forall_app. split; [exact Hsl |]. constructor; [| constructor].
  eapply train_epoch_loss; eassumption.
Qed.

End ReportedLoss.

Lemma reported_loss_not_negative_witness :
  exists m m' log,
    MyRNN_init (fun _ _ _ => 0) "BiLSTM" = Ok m
    /\ train_model (K := demo_torch)
         [mkBatch [[5; 7]; [3; 1]]%nat [2; 1]%nat [1; 0]] m
       = Ok (m', log)
    /\ Forall loss_not_negative log.
Proof.
  destruct (MyRNN_init_ok (fun _ _ _ => 0) "BiLSTM") as (m & Hinit).
  destruct (MyRNN_init_embed _ _ m Hinit) as (Hnum & Hdim & _).
  destruct (train_model_trainable (K := demo_torch) demo_kernel_shapes
              demo_autograd_shapes BiLSTM
              [mkBatch [[5; 7]; [3; 1]]%nat [2; 1]%nat [1; 0]] m
              (MyRNN_init_well_built _ BiLSTM m Hinit) Hnum Hdim
              ltac:(discriminate) eq_refl) as (s & losses & Hrun & _).
  exists m, (t_model s), (training_lines (name m) losses).
  split; [exact Hinit |]. split; [exact Hrun |].
  apply (reported_loss_not_negative (K := demo_torch)
           [mkBatch [[5; 7]; [3; 1]]%nat [2; 1]%nat [1; 0]] m (t_model s)).
  - constructor; [| constructor]. unfold labels_in_unit_interval. cbn [label].
    constructor; [lra |]. constructor; [lra | constructor].
  - exact Hrun.
Defined.
